(** * A shallow embedding of the RAG engine of sammyai_v1

    Modelled sources: [src/rag/indexer.py] ([FileIndexer.chunk_text] and
    its helpers), [src/rag/vector_store.py] ([VectorStore]) and
    [src/rag/rag_system.py] ([RAGSystem]).

    Conventions:
    - Python strings are [list ascii]; positions and lengths are [nat].
    - Python floats (timestamps from [time.time()], similarity scores,
      embedding components) are rationals [Q].
    - The ChromaDB collection behind [VectorStore] is a list of records;
      the backend's own [add] and [query] operations, which live outside the
      repository, are parameters of the model. *)

From Stdlib Require Import Ascii String List Arith ZArith Lia Bool QArith Sorted.
Import ListNotations.
Open Scope string_scope.
Open Scope nat_scope.
Open Scope list_scope.

(* ------------------------------------------------------------------ *)
(** ** Characters and Python string helpers *)

Definition ascii_of (n : nat) : ascii := ascii_of_nat n.

(** [str.isspace] on the code points [0..255]: tab, newline, vertical tab,
    form feed, carriage return, the separators 0x1c-0x1f, space, U+0085
    (next line) and U+00A0 (no-break space). [str.strip()] without
    arguments strips exactly these characters. *)
Definition is_space (c : ascii) : bool :=
  let n := nat_of_ascii c in
  ((9 <=? n) && (n <=? 13)) || ((28 <=? n) && (n <=? 32)) ||
  (n =? 133) || (n =? 160).

Fixpoint lstrip (s : list ascii) : list ascii :=
  match s with
  | [] => []
  | c :: r => if is_space c then lstrip r else s
  end.

(** [s.strip()] *)
Definition strip (s : list ascii) : list ascii := rev (lstrip (rev (lstrip s))).

(** [text[start:end]] for [0 <= start], [0 <= end]. *)
Definition slice (text : list ascii) (start end_ : nat) : list ascii :=
  firstn (end_ - start) (skipn start text).

Fixpoint is_prefix (p s : list ascii) : bool :=
  match p, s with
  | [], _ => true
  | a :: p', b :: s' => Ascii.eqb a b && is_prefix p' s'
  | _ :: _, [] => false
  end.

(** [text.rfind(sub, start, end)]: the highest index [i] with
    [start <= i], [i + len(sub) <= end] (with [end] clamped to [len(text)])
    at which [sub] occurs; [None] stands for Python's [-1]. *)
Definition rfind (text sub : list ascii) (start end_ : nat) : option nat :=
  let e := Nat.min end_ (length text) in
  let cands := seq start ((e + 1) - (start + length sub)) in
  match rev (filter (fun i => is_prefix sub (skipn i text)) cands) with
  | [] => None
  | i :: _ => Some i
  end.

Definition nl : ascii := ascii_of 10.
Definition sp : ascii := ascii_of 32.
Definition dot : ascii := ascii_of 46.

(* ------------------------------------------------------------------ *)
(** ** Documents and metadata ([indexer.py]) *)

(** The dictionary returned by [FileIndexer.extract_metadata]. *)
Record file_meta := {
  file_path : string;
  file_name : string;
  file_extension : string;
  file_size : nat;
  modified_time : Q;
  created_time : Q
}.

(** [chunk_metadata = metadata.copy(); chunk_metadata.update({...})] *)
Record chunk_meta := {
  base_meta : file_meta;
  chunk_index : nat;
  start_char : nat;
  end_char : nat;
  chunk_length : nat
}.

Record Document := {
  chunk_id : string;
  doc_text : list ascii;
  metadata : chunk_meta
}.

(** [FileIndexer(chunk_size, overlap)] *)
Record indexer_cfg := {
  chunk_size : nat;
  overlap : nat
}.

Section Chunking.

(** [FileIndexer._generate_chunk_id(file_path, chunk_index)]:
    the md5 hex digest of ["{file_path}:{chunk_index}"]. *)
Variable generate_chunk_id : string -> nat -> string.

Variable cfg : indexer_cfg.
Variable text : list ascii.
Variable meta : file_meta.

(** [min_progress = max(1, self.overlap + 1)] *)
Definition min_progress : nat := Nat.max 1 (overlap cfg + 1).

(** [max_iterations = len(text) // min_progress + 100] *)
Definition max_iterations : nat := length text / min_progress + 100.

(** The break-point search: paragraph break, line break, sentence end,
    any space, each tried only when the previous one gave [-1]. *)
Definition find_break (start end0 : nat) : option nat :=
  match rfind text [nl; nl] start end0 with
  | Some b => Some b
  | None =>
    match rfind text [nl] start end0 with
    | Some b => Some b
    | None =>
      match rfind text [dot; sp] start end0 with
      | Some b => Some b
      | None => rfind text [sp] start end0
      end
    end
  end.

(** The value of [end] after [end = min(end, len(text))]. *)
Definition window_end (start : nat) : nat :=
  let end0 := start + chunk_size cfg in
  let end1 :=
    if end0 <? length text then
      match find_break start end0 with
      | Some b => if start + min_progress <? b then b + 1 else end0
      | None => end0  (* break_pos = -1 is never > start + min_progress *)
      end
    else end0 in
  Nat.min end1 (length text).

(** [next_start = end - self.overlap; if next_start <= start:
    next_start = start + min_progress]. The test [end - overlap <= start]
    is over Python integers, written here as [end <= start + overlap]. *)
Definition next_start (start : nat) : nat :=
  let e := window_end start in
  if e <=? start + overlap cfg then start + min_progress else e - overlap cfg.

Definition make_doc (start idx : nat) (ct : list ascii) : Document :=
  {| chunk_id := generate_chunk_id (file_path meta) idx;
     doc_text := ct;
     metadata := {| base_meta := meta; chunk_index := idx;
                    start_char := start; end_char := window_end start;
                    chunk_length := length ct |} |}.

(** The [while start < len(text)] loop. [budget] is
    [max_iterations - iteration] on entry: when it is [0], the increment
    makes [iteration > max_iterations] and the loop breaks. The loop returns
    the chunks it appends (in order) and the final value of [iteration]. *)
Fixpoint chunk_loop (budget iteration start idx : nat) : list Document * nat :=
  if start <? length text then
    let iteration := S iteration in
    match budget with
    | 0 => ([], iteration)  (* safety limit reached: break *)
    | S b =>
      let e := window_end start in
      let ct := strip (slice text start e) in
      match ct with
      | [] => chunk_loop b iteration (next_start start) idx
      | _ :: _ =>
        let (rest, it) := chunk_loop b iteration (next_start start) (S idx) in
        (make_doc start idx ct :: rest, it)
      end
    end
  else ([], iteration).

(** [chunk_text] together with the final iteration counter. *)
Definition chunk_text_run : list Document * nat :=
  match strip text with
  | [] => ([], 0)   (* if not text or not text.strip(): return [] *)
  | _ => chunk_loop max_iterations 0 0 0
  end.

(** [FileIndexer.chunk_text(text, metadata)] *)
Definition chunk_text : list Document := fst chunk_text_run.

(** Whether the loop stopped at the safety limit. *)
Definition chunking_aborted : bool := max_iterations <? snd chunk_text_run.

(** The successive values of [start] for which the loop body runs past the
    safety check, computed by the same steps as [chunk_loop]. *)
Fixpoint start_trace (budget start : nat) : list nat :=
  if start <? length text then
    match budget with
    | 0 => []
    | S b => start :: start_trace b (next_start start)
    end
  else [].

Definition chunk_starts : list nat :=
  match strip text with
  | [] => []
  | _ => start_trace max_iterations 0
  end.

End Chunking.

(** [FileIndexer.SUPPORTED_EXTENSIONS] *)
Definition SUPPORTED_EXTENSIONS : list string :=
  [".py"; ".txt"; ".md"; ".json"; ".yaml"; ".yml";
   ".js"; ".jsx"; ".ts"; ".tsx"; ".html"; ".css";
   ".cpp"; ".c"; ".h"; ".java"; ".go"; ".rs"]%string.

Definition slash : ascii := ascii_of 47.

(** [s.split(sep)] for a one-character separator. *)
Fixpoint split_on (sep : ascii) (s : list ascii) : list (list ascii) :=
  match s with
  | [] => [[]]
  | c :: r =>
    if Ascii.eqb c sep then [] :: split_on sep r
    else match split_on sep r with
         | [] => [[c]]
         | w :: ws => (c :: w) :: ws
         end
  end.

(** pathlib drops empty components and ["."] components when it parses a
    POSIX path. *)
Definition keep_part (part : list ascii) : bool :=
  match part with
  | [] => false
  | [c] => negb (Ascii.eqb c dot)
  | _ => true
  end.

(** [PurePosixPath(p).name]: the last component left after parsing, or the
    empty string when there is none. *)
Definition path_name (p : list ascii) : list ascii :=
  last (filter keep_part (split_on slash p)) [].

(** [PurePath.suffix]: [i = name.rfind('.')]; [name[i:]] if
    [0 < i < len(name) - 1], else the empty string. *)
Definition path_suffix (name : list ascii) : list ascii :=
  match rfind name [dot] 0 (length name) with
  | Some i => if (0 <? i) && (i <? length name - 1) then skipn i name else []
  | None => []
  end.

(** [str.lower] on the characters [0..255]: ['A'..'Z'] and the Latin-1
    capitals [U+00C0..U+00D6], [U+00D8..U+00DE] move up by 32. *)
Definition lower_char (c : ascii) : ascii :=
  let n := nat_of_ascii c in
  if ((65 <=? n) && (n <=? 90)) || ((192 <=? n) && (n <=? 222) && negb (n =? 215))
  then ascii_of (n + 32) else c.

Definition lower (s : list ascii) : list ascii := map lower_char s.

(** [FileIndexer.is_supported_file]:
    [Path(file_path).suffix.lower() in self.SUPPORTED_EXTENSIONS]. *)
Definition is_supported_file (file_path : list ascii) : bool :=
  let ext := string_of_list_ascii (lower (path_suffix (path_name file_path))) in
  existsb (String.eqb ext) SUPPORTED_EXTENSIONS.

(* ------------------------------------------------------------------ *)
(** ** Vector store ([vector_store.py]) *)

Definition embedding := list Q.

(** A stored ChromaDB record: id, document text, embedding, metadata. The
    metadata is already typed here, so the cleaning loop of
    [add_documents] (which stringifies non-scalar values) is the identity. *)
Record record := {
  rid : string;
  rtext : list ascii;
  remb : embedding;
  rmeta : chunk_meta
}.

Definition collection := list record.

(** A [where] filter such as [{"file_path": p}]. *)
Definition where_filter := list (string * string).

Inductive vs_error := ShapeMismatch | BackendError.

Inductive result (A : Type) :=
| Ok (a : A)
| Err (e : vs_error).
Arguments Ok {A} a.
Arguments Err {A} e.

Definition rec_file_path (r : record) : string := file_path (base_meta (rmeta r)).

Section VectorStore.

(** [self.collection.add(ids=..., embeddings=..., documents=..., metadatas=...)]
    of the ChromaDB backend; [None] when the backend raises. *)
Variable collection_add :
  list string -> list embedding -> list (list ascii) -> list chunk_meta ->
  collection -> option collection.

(** [self.collection.query(query_embeddings=[q], n_results=n, where=w)],
    returning the rows of the single query: ids, documents, metadatas and
    distances; [None] when the backend raises. *)
Variable collection_query :
  embedding -> Z -> option where_filter -> collection ->
  option (list string * list (list ascii) * list chunk_meta * list Q).

(** The guard [not chunk_ids or len(chunk_ids) != len(texts) !=
    len(embeddings) != len(metadatas)]. A chained comparison in Python is
    the conjunction of its adjacent comparisons. *)
Definition shape_guard (chunk_ids : list string) (texts : list (list ascii))
    (embeddings : list embedding) (metadatas : list chunk_meta) : bool :=
  match chunk_ids with
  | [] => true
  | _ =>
    negb (length chunk_ids =? length texts) &&
    negb (length texts =? length embeddings) &&
    negb (length embeddings =? length metadatas)
  end.

(** [VectorStore.add_documents]; [Err ShapeMismatch] is the [ValueError] of
    the guard, [Err BackendError] an exception of [collection.add],
    re-raised after printing. *)
Definition add_documents (chunk_ids : list string) (texts : list (list ascii))
    (embeddings : list embedding) (metadatas : list chunk_meta)
    (c : collection) : result collection :=
  if shape_guard chunk_ids texts embeddings metadatas then Err ShapeMismatch
  else
    match collection_add chunk_ids embeddings texts metadatas c with
    | Some c' => Ok c'
    | None => Err BackendError
    end.

(** [n_results=min(top_k, count)] *)
Definition n_results (top_k : Z) (count : nat) : Z := Z.min top_k (Z.of_nat count).

(** [VectorStore.search]: the returned similarities are [1 - d]. *)
Definition search (query_embedding : embedding) (top_k : Z)
    (where_ : option where_filter) (c : collection)
    : list string * list (list ascii) * list chunk_meta * list Q :=
  let count := length c in
  if count =? 0 then ([], [], [], [])
  else
    match collection_query query_embedding (n_results top_k count) where_ c with
    | Some (ids, documents, metadatas, distances) =>
        (ids, documents, metadatas, map (fun d => 1 - d)%Q distances)
    | None => ([], [], [], [])
    end.

(** [VectorStore.add_document]: [add_documents] on one-element lists. *)
Definition add_document (chunk_id : string) (text : list ascii) (vec : embedding)
    (meta : chunk_meta) (c : collection) : result collection :=
  add_documents [chunk_id] [text] [vec] [meta] c.

(** [VectorStore.delete_document]: [collection.delete(ids=[chunk_id])]; an
    exception of the backend is printed and dropped. *)
Definition delete_document (chunk_id : string) (c : collection) : collection :=
  filter (fun r => negb (String.eqb (rid r) chunk_id)) c.

(** [VectorStore.update_document]: [delete_document], then [add_document].
    The result is the collection after the call and the exception it raises,
    if any; an exception of the [add] leaves the deletion in place. *)
Definition update_document (chunk_id : string) (text : list ascii) (vec : embedding)
    (meta : chunk_meta) (c : collection) : collection * option vs_error :=
  let c1 := delete_document chunk_id c in
  match add_document chunk_id text vec meta c1 with
  | Ok c2 => (c2, None)
  | Err e => (c1, Some e)
  end.

End VectorStore.

(** [VectorStore.delete_by_file]: [collection.get(where={"file_path": p})]
    followed by [collection.delete(ids=...)] when some ids were found. *)
Definition delete_by_file (fp : string) (c : collection) : collection :=
  let ids := map rid (filter (fun r => String.eqb (rec_file_path r) fp) c) in
  match ids with
  | [] => c
  | _ => filter (fun r => negb (existsb (String.eqb (rid r)) ids)) c
  end.

(** [VectorStore.get_document_count] *)
Definition get_document_count (c : collection) : nat := length c.

(** [VectorStore.get_all_file_paths]: the distinct [file_path] values of the
    stored metadata. The source also sorts them; its callers here only test
    membership, so the order is left as found. *)
Definition get_all_file_paths (c : collection) : list string :=
  nodup string_dec (map rec_file_path c).

(** [VectorStore.clear_collection]: delete and recreate the collection. *)
Definition clear_collection (c : collection) : collection := [].

(* ------------------------------------------------------------------ *)
(** ** Embedding cache *)

(** Modelled from the spec: [EmbeddingManager] ([src/rag/embeddings.py] is
    not in the source tree). Its on-disk cache maps a cache key to the list
    of vectors written under it ("one blob per key"); [cache_read] of a
    missing key is absent, [cache_write] replaces the entry, [clear_cache]
    removes every entry. *)
Definition emb_cache := list (string * list embedding).

Definition load_cached_embeddings (key : string) (ec : emb_cache)
    : option (list embedding) :=
  match find (fun kv => String.eqb (fst kv) key) ec with
  | Some (_, v) => Some v
  | None => None
  end.

Definition cache_embeddings (key : string) (v : list embedding) (ec : emb_cache)
    : emb_cache :=
  (key, v) :: filter (fun kv => negb (String.eqb (fst kv) key)) ec.

Definition clear_cache (ec : emb_cache) : emb_cache := [].

(* ------------------------------------------------------------------ *)
(** ** RAG facade ([rag_system.py]) *)

Record RetrievalResult := {
  rr_chunk_id : string;
  rr_text : list ascii;
  rr_metadata : chunk_meta;
  rr_score : Q
}.

Record FormattedContext := {
  context_text : string;
  fc_chunks : list RetrievalResult;
  total_tokens : nat;
  truncated : bool
}.

(** The keyword arguments of [get_context] besides [query]. *)
Record context_params := {
  top_k : Z;
  retrieval_method : string;
  format_style : string;
  boost_active_files : bool;
  min_score : Q;
  filters : option where_filter
}.

(** Constructor-time configuration of [RAGSystem]. *)
Record rag_config := {
  rc_indexer : indexer_cfg;
  max_documents : nat;
  max_chunks_per_file : nat;
  context_cooldown : Q   (* self._context_cooldown = 2.0 *)
}.

(** The mutable state of a [RAGSystem]: the vector store's collection, the
    embedding cache, the retriever's active-file set and the three fields of
    the [get_context] cooldown cache. *)
Record rag_state := {
  store : collection;
  cache : emb_cache;
  active_files : list string;
  last_context_time : Q;
  last_context_query : string;
  last_context_result : option FormattedContext
}.

Definition set_store (st : rag_state) (c : collection) : rag_state :=
  {| store := c; cache := cache st; active_files := active_files st;
     last_context_time := last_context_time st;
     last_context_query := last_context_query st;
     last_context_result := last_context_result st |}.

Definition set_cache (st : rag_state) (ec : emb_cache) : rag_state :=
  {| store := store st; cache := ec; active_files := active_files st;
     last_context_time := last_context_time st;
     last_context_query := last_context_query st;
     last_context_result := last_context_result st |}.

(** State of a freshly constructed instance (on an empty index):
    [_last_context_time = 0], [_last_context_query = ""],
    [_last_context_result = None]. *)
Definition fresh_state : rag_state :=
  {| store := []; cache := []; active_files := [];
     last_context_time := 0%Q; last_context_query := EmptyString;
     last_context_result := None |}.

(** The entries of a listing that [index_directory] hands to [index_file]:
    files with a supported extension. *)
Definition supported_files (entries : list (string * bool)) : list (string * bool) :=
  filter (fun e => snd e && is_supported_file (list_ascii_of_string (fst e))) entries.

Section Rag.

(** [str(Path(file_path).absolute())] *)
Variable absolute : string -> string.
(** [FileIndexer.parse_file]: the file's text, or [None] when it is missing,
    unsupported, larger than 50 MB or unreadable. *)
Variable parse_file : string -> option (list ascii).
(** [FileIndexer.extract_metadata] *)
Variable extract_metadata : string -> file_meta.
Variable generate_chunk_id : string -> nat -> string.
(** [RAGSystem._get_file_hash]: md5 hex digest of the path. *)
Variable file_hash : string -> string.
(** Modelled from the spec: [EmbeddingManager.batch_generate] returns one
    vector per text, in input order, each the model's embedding of it. *)
Variable embed : list ascii -> embedding.
Variable collection_add :
  list string -> list embedding -> list (list ascii) -> list chunk_meta ->
  collection -> option collection.
(** [ContextRetriever.retrieve] and [ContextBuilder.build_context]
    ([retriever.py] and [context_builder.py] are not in the source tree):
    left as arbitrary functions of their inputs. *)
Variable retrieve : collection -> list string -> string -> context_params ->
  list RetrievalResult.
Variable build_context : list RetrievalResult -> string -> string ->
  FormattedContext.
Variable cfg : rag_config.

(** [FileIndexer.index_file]: parse, then chunk. *)
Definition indexer_index_file (fp : string) : list Document :=
  match parse_file fp with
  | None => []
  | Some content =>
    chunk_text generate_chunk_id (rc_indexer cfg) content (extract_metadata fp)
  end.

Definition batch_generate (texts : list (list ascii)) : list embedding :=
  map embed texts.

(** Steps 1-3 of [index_file], run on [st1] (the state after the optional
    [delete_by_file]); [current_count] was read before that deletion. *)
Definition index_chunks (fp : string) (current_count : nat) (st1 : rag_state)
    : bool * rag_state :=
  match indexer_index_file fp with
  | [] => (false, st1)                       (* No chunks created *)
  | chunks0 =>
    let chunks :=
      if max_chunks_per_file cfg <? length chunks0
      then firstn (max_chunks_per_file cfg) chunks0 else chunks0 in
    if max_documents cfg <? current_count + length chunks then (false, st1)
    else
      let texts := map doc_text chunks in
      let cache_key := file_hash fp in
      let '(embeddings, ec) :=
        match load_cached_embeddings cache_key (cache st1) with
        | Some e =>
          if length e =? length texts then (e, cache st1)
          else let g := batch_generate texts in
               (g, cache_embeddings cache_key g (cache st1))
        | None =>
          let g := batch_generate texts in
          (g, cache_embeddings cache_key g (cache st1))
        end in
      let st2 := set_cache st1 ec in
      match add_documents collection_add (map chunk_id chunks) texts embeddings
              (map metadata chunks) (store st2) with
      | Ok c => (true, set_store st2 c)
      | Err _ => (false, st2)              (* except Exception: return False *)
      end
  end.

(** [RAGSystem.index_file(file_path, force_reindex)] *)
Definition index_file (st : rag_state) (path : string) (force_reindex : bool)
    : bool * rag_state :=
  let fp := absolute path in
  let current_count := get_document_count (store st) in
  if (max_documents cfg <=? current_count) && negb force_reindex then (false, st)
  else if negb force_reindex then
    if existsb (String.eqb fp) (get_all_file_paths (store st)) then (true, st)
    else index_chunks fp current_count st
  else index_chunks fp current_count (set_store st (delete_by_file fp (store st))).

(** The cooldown test of [get_context]: [query == self._last_context_query
    and current_time - self._last_context_time < self._context_cooldown and
    self._last_context_result is not None]. *)
Definition context_cache_hit (st : rag_state) (query : string) (now : Q)
    : option FormattedContext :=
  if String.eqb query (last_context_query st) &&
     negb (Qle_bool (context_cooldown cfg) (now - last_context_time st))
  then last_context_result st
  else None.

(** [RAGSystem.get_context(query, ...)] called at time [now]. *)
Definition get_context (st : rag_state) (query : string) (params : context_params)
    (now : Q) : FormattedContext * rag_state :=
  match context_cache_hit st query now with
  | Some r => (r, st)
  | None =>
    let retrieval_results := retrieve (store st) (active_files st) query params in
    let formatted_context :=
      build_context retrieval_results query (format_style params) in
    (formatted_context,
     {| store := store st; cache := cache st; active_files := active_files st;
        last_context_time := now; last_context_query := query;
        last_context_result := Some formatted_context |})
  end.

(** [RAGSystem.clear_index] *)
Definition clear_index (st : rag_state) : rag_state :=
  {| store := clear_collection (store st); cache := clear_cache (cache st);
     active_files := [];
     last_context_time := last_context_time st;
     last_context_query := last_context_query st;
     last_context_result := last_context_result st |}.

(** [Path(directory_path)] with [rglob('*')] ([recursive]) or [glob('*')]:
    [None] when the path does not exist or is not a directory, otherwise
    each entry as [(str(file_path), file_path.is_file())], in walk order. *)
Variable list_files : string -> bool -> option (list (string * bool)).

(** The loop of [RAGSystem.index_directory] over the listed entries:
    the number of [index_file] calls that returned [True], and the state. *)
Fixpoint index_entries (st : rag_state) (entries : list (string * bool))
    : nat * rag_state :=
  match entries with
  | [] => (0, st)
  | (p, is_file) :: rest =>
    if is_file && is_supported_file (list_ascii_of_string p) then
      let (ok, st1) := index_file st p false in
      let (n, st2) := index_entries st1 rest in
      (if ok then S n else n, st2)
    else index_entries st rest
  end.

(** [RAGSystem.index_directory(directory_path, recursive)] *)
Definition index_directory (st : rag_state) (directory_path : string)
    (recursive : bool) : nat * rag_state :=
  match list_files directory_path recursive with
  | None => (0, st)          (* Invalid directory: return 0 *)
  | Some entries => index_entries st entries
  end.

End Rag.

(** Relation between consecutive chunks: strictly increasing [start_char],
    non-decreasing [end_char], and an overlap of at most [ov] characters. *)
Definition chunk_rel (ov : nat) (d1 d2 : Document) : Prop :=
  start_char (metadata d1) < start_char (metadata d2) /\
  end_char (metadata d1) <= end_char (metadata d2) /\
  end_char (metadata d1) <= start_char (metadata d2) + ov.

(** Position [p] lies in the range [start_char, end_char) of some chunk. *)
Definition covered (L : list Document) (p : nat) : Prop :=
  exists d, In d L /\ start_char (metadata d) <= p < end_char (metadata d).

Definition chunk_indices (L : list Document) : list nat :=
  map (fun d => chunk_index (metadata d)) L.

(* ------------------------------------------------------------------ *)
(** ** Concrete instances used to run the model *)

Definition str (s : string) : list ascii := list_ascii_of_string s.

Definition meta_of (p : string) : file_meta :=
  {| file_path := p; file_name := p; file_extension := ".txt"%string;
     file_size := 0; modified_time := 0%Q; created_time := 0%Q |}.

(** A chunk-id function (the model's results do not depend on md5). *)
Definition cid (p : string) (i : nat) : string :=
  String.append p (String (ascii_of (48 + i)) EmptyString).

Fixpoint make_records (ids : list string) (embs : list embedding)
    (texts : list (list ascii)) (metas : list chunk_meta) : collection :=
  match ids, embs, texts, metas with
  | i :: ids', e :: embs', t :: texts', m :: metas' =>
    {| rid := i; rtext := t; remb := e; rmeta := m |}
      :: make_records ids' embs' texts' metas'
  | _, _, _, _ => []
  end.

(** A backend [add] that appends one record per id and rejects lists of
    different lengths. *)
Definition append_add (ids : list string) (embs : list embedding)
    (texts : list (list ascii)) (metas : list chunk_meta) (c : collection)
    : option collection :=
  if (length ids =? length embs) && (length ids =? length texts) &&
     (length ids =? length metas)
  then Some (c ++ make_records ids embs texts metas) else None.

Fixpoint has_dup (l : list string) : bool :=
  match l with
  | [] => false
  | x :: r => existsb (String.eqb x) r || has_dup r
  end.

(** A backend [add] that behaves as ChromaDB's: it raises on lists of
    different lengths and on an id repeated within the batch, skips the ids
    already in the collection, and appends a record for each other id. *)
Definition chroma_add (ids : list string) (embs : list embedding)
    (texts : list (list ascii)) (metas : list chunk_meta) (c : collection)
    : option collection :=
  if (length ids =? length embs) && (length ids =? length texts) &&
     (length ids =? length metas) && negb (has_dup ids)
  then Some (c ++ filter (fun r => negb (existsb (String.eqb (rid r)) (map rid c)))
                    (make_records ids embs texts metas))
  else None.

(** A backend [query] returning the first [n] records ([n <= 0] raises). *)
Definition first_k_query (q : embedding) (n : Z) (w : option where_filter)
    (c : collection)
    : option (list string * list (list ascii) * list chunk_meta * list Q) :=
  if (n <=? 0)%Z then None
  else
    let rows := firstn (Z.to_nat n) c in
    Some (map rid rows, map rtext rows, map rmeta rows, map (fun _ => 0%Q) rows).

Definition cmeta (p : string) (i : nat) : chunk_meta :=
  {| base_meta := meta_of p; chunk_index := i; start_char := 0; end_char := 1;
     chunk_length := 1 |}.

(** A stored record of file [p] with chunk index [i]. *)
Definition rec_of (p : string) (i : nat) : record :=
  {| rid := cid p i; rtext := str "x"; remb := [1%Q]; rmeta := cmeta p i |}.

Definition cfg_of (cs ov md mc : nat) : rag_config :=
  {| rc_indexer := {| chunk_size := cs; overlap := ov |};
     max_documents := md; max_chunks_per_file := mc; context_cooldown := 2%Q |}.

Definition state_with (c : collection) : rag_state := set_store fresh_state c.

Definition params_k (k : Z) : context_params :=
  {| top_k := k; retrieval_method := "vector"%string;
     format_style := "detailed"%string; boost_active_files := true;
     min_score := 0%Q; filters := None |}.

Definition path_f : string := "/f.txt"%string.

(** A file system holding [path_f] with the given text. *)
Definition fs_with (content : list ascii) (p : string) : option (list ascii) :=
  if String.eqb p path_f then Some content else None.

(** A retriever instance: the first [top_k] stored records, score 1. *)
Definition take_retrieve (c : collection) (active : list string) (q : string)
    (ps : context_params) : list RetrievalResult :=
  map (fun r => {| rr_chunk_id := rid r; rr_text := rtext r;
                   rr_metadata := rmeta r; rr_score := 1%Q |})
      (firstn (Z.to_nat (top_k ps)) c).

(** A context-builder instance keeping the results as the chunks. *)
Definition list_build (rs : list RetrievalResult) (q style : string)
    : FormattedContext :=
  {| context_text := q; fc_chunks := rs; total_tokens := length rs;
     truncated := false |}.

Definition embed1 (t : list ascii) : embedding := [inject_Z (Z.of_nat (length t))].

(** [index_file] on the file system holding [path_f] with [content]. *)
Definition run_index (c : rag_config) (content : list ascii) (st : rag_state)
    (force : bool) : bool * rag_state :=
  index_file (fun p => p) (fs_with content) meta_of cid (fun p => p) embed1
    append_add c st path_f force.

(** A text that [chunk_size = 2], [overlap = 0] cuts into 6 chunks. *)
Definition text6 : list ascii := str "abcdefghijkl".

Definition recs_f (n : nat) : collection := map (rec_of path_f) (seq 0 n).

(** A chunk-id function that tells every chunk index apart. *)
Definition unary_id (p : string) (i : nat) : string :=
  string_of_list_ascii (repeat "a"%char i).

(** A state whose [get_context] cache holds a context for the query ["q"]
    computed at time 1. *)
Definition cached_state : rag_state :=
  {| store := recs_f 2; cache := []; active_files := [];
     last_context_time := 1%Q; last_context_query := "q"%string;
     last_context_result := Some (list_build [] "q" "detailed") |}.

(** A directory ["/d"] holding [path_f], a file of an unsupported type and a
    subdirectory. *)
Definition dir_listing (d : string) (recursive : bool)
    : option (list (string * bool)) :=
  if String.eqb d "/d" then
    Some [(path_f, true); ("/d/x.bin"%string, true); ("/d/sub"%string, false)]
  else None.

(* ================================================================== *)
(** * Facts about the chunker *)

Section ChunkFacts.

Variable generate_chunk_id : string -> nat -> string.
Variable cfg : indexer_cfg.
Variable text : list ascii.
Variable meta : file_meta.
Hypothesis Hcfg : overlap cfg < chunk_size cfg.

Local Abbreviation len := (length text).
Local Abbreviation we := (window_end cfg text).
Local Abbreviation ns := (next_start cfg text).

Lemma min_progress_eq : min_progress cfg = overlap cfg + 1.
Proof. clear Hcfg. unfold min_progress. lia. Qed.

Lemma rfind_some t sub s e i :
  rfind t sub s e = Some i -> s <= i /\ i + length sub <= Nat.min e (length t).
Proof. clear Hcfg.
  unfold rfind.
  destruct (rev (filter _ _)) as [|j l] eqn:E; intros H; [discriminate|].
  injection H as ->.
  assert (Hin : In i (rev (filter (fun i => is_prefix sub (skipn i t))
                    (seq s ((Nat.min e (length t) + 1) - (s + length sub))))))
    by (rewrite E; left; reflexivity).
  apply in_rev in Hin.
  apply filter_In in Hin as [Hin _]. apply in_seq in Hin. lia.
Qed.

Lemma find_break_some s e0 b :
  find_break text s e0 = Some b -> s <= b /\ b + 1 <= e0.
Proof. clear Hcfg.
  unfold find_break.
  destruct (rfind text [nl; nl] s e0) eqn:E1;
    [intros H; injection H as <-; apply rfind_some in E1; simpl in E1; lia|].
  destruct (rfind text [nl] s e0) eqn:E2;
    [intros H; injection H as <-; apply rfind_some in E2; simpl in E2; lia|].
  destruct (rfind text [dot; sp] s e0) eqn:E3;
    [intros H; injection H as <-; apply rfind_some in E3; simpl in E3; lia|].
  intros E4. apply rfind_some in E4. simpl in E4. lia.
Qed.

Lemma window_end_le_len s : we s <= len.
Proof. clear Hcfg. unfold window_end. lia. Qed.

Lemma window_end_lower s :
  Nat.min (s + chunk_size cfg) len <= we s \/ s + min_progress cfg + 2 <= we s.
Proof. clear Hcfg.
  unfold window_end.
  destruct (s + chunk_size cfg <? len) eqn:E; [|left; lia].
  apply Nat.ltb_lt in E.
  destruct (find_break text s (s + chunk_size cfg)) as [b|] eqn:F; [|left; lia].
  apply find_break_some in F.
  destruct (s + min_progress cfg <? b) eqn:G; [|left; lia].
  apply Nat.ltb_lt in G. right. lia.
Qed.

Lemma window_end_gt s : s < len -> s < we s.
Proof.
  intros H. pose proof (window_end_lower s). rewrite min_progress_eq in H0. lia.
Qed.

Lemma next_start_gt s : s < ns s.
Proof. clear Hcfg.
  unfold next_start. rewrite min_progress_eq.
  destruct (we s <=? s + overlap cfg) eqn:E.
  - lia.
  - apply Nat.leb_gt in E. lia.
Qed.

Lemma window_end_le_next s : we s <= ns s + overlap cfg.
Proof. clear Hcfg.
  unfold next_start. rewrite min_progress_eq.
  destruct (we s <=? s + overlap cfg) eqn:E.
  - apply Nat.leb_le in E. lia.
  - lia.
Qed.

(** A window that does not reach past [start + overlap] ends the text. *)
Lemma next_start_cover s : ns s <= we s \/ we s = len.
Proof.
  unfold next_start.
  destruct (we s <=? s + overlap cfg) eqn:E.
  - apply Nat.leb_le in E. right.
    pose proof (window_end_lower s). pose proof (window_end_le_len s).
    rewrite min_progress_eq in H. lia.
  - left. lia.
Qed.

Lemma next_start_cases s :
  (we s <= s + overlap cfg /\ ns s = s + overlap cfg + 1) \/
  (s + overlap cfg < we s /\ ns s = we s - overlap cfg).
Proof. clear Hcfg.
  unfold next_start. rewrite min_progress_eq.
  destruct (we s <=? s + overlap cfg) eqn:E.
  - apply Nat.leb_le in E. left. lia.
  - apply Nat.leb_gt in E. right. lia.
Qed.

Lemma window_end_mono s : we s <= we (ns s).
Proof.
  pose proof (window_end_lower (ns s)) as H1.
  pose proof (window_end_le_len s) as H2.
  pose proof (window_end_le_len (ns s)) as H3.
  rewrite min_progress_eq in H1.
  destruct (next_start_cases s) as [[E1 E2]|[E1 E2]]; lia.
Qed.

Lemma lstrip_spaces l :
  forallb is_space (lstrip l) = true -> forallb is_space l = true.
Proof. clear Hcfg.
  induction l as [|c l IH]; simpl; [auto|].
  destruct (is_space c) eqn:E; simpl.
  - exact IH.
  - rewrite E. auto.
Qed.

(** [s.strip()] is empty exactly when [s] is made of whitespace. *)
Lemma strip_nil_spaces l : strip l = [] -> forallb is_space l = true.
Proof. clear Hcfg.
  unfold strip. intros H.
  apply (f_equal (@rev ascii)) in H. rewrite rev_involutive in H.
  apply lstrip_spaces.
  assert (Hr : forallb is_space (rev (lstrip l)) = true)
    by (apply lstrip_spaces; rewrite H; reflexivity).
  rewrite forallb_forall in Hr |- *. intros x Hx. apply Hr. rewrite <- in_rev. exact Hx.
Qed.

Lemma slice_space s e p :
  forallb is_space (slice text s e) = true -> s <= p < e -> e <= len ->
  is_space (nth p text " "%char) = true.
Proof. clear Hcfg.
  unfold slice. rewrite forallb_forall. intros H Hp He.
  replace (nth p text " "%char)
    with (nth (p - s) (firstn (e - s) (skipn s text)) " "%char).
  - apply H, nth_In. rewrite length_firstn, length_skipn. lia.
  - rewrite nth_firstn. destruct (p - s <? e - s) eqn:E; [|apply Nat.ltb_ge in E; lia].
    rewrite nth_skipn. f_equal. lia.
Qed.

Local Abbreviation loop := (chunk_loop generate_chunk_id cfg text meta).

(** The invariant of the [while] loop, from any value of [start]. *)
Lemma chunk_loop_invariant budget it s idx L it' :
  loop budget it s idx = (L, it') ->
  chunk_indices L = seq idx (length L) /\
  Forall (fun d => s <= start_char (metadata d) /\
                   start_char (metadata d) < end_char (metadata d) /\
                   end_char (metadata d) <= len /\
                   we s <= end_char (metadata d)) L /\
  Sorted (chunk_rel (overlap cfg)) L /\
  it' <= it + S budget /\
  (it' <= it + budget ->
   forall p, s <= p < len -> is_space (nth p text " "%char) = false ->
   covered L p).
Proof.
  revert it s idx L it'.
  induction budget as [|b IH]; intros it s idx L it' H; simpl in H.
  - destruct (s <? len) eqn:Es; injection H as <- <-.
    + repeat split; auto; [lia|]. intros Hc. lia.
    + repeat split; auto; [lia|]. apply Nat.ltb_ge in Es. intros _ p Hp. lia.
  - destruct (s <? len) eqn:Es; [apply Nat.ltb_lt in Es|].
    2:{ injection H as <- <-. repeat split; auto; [lia|].
        apply Nat.ltb_ge in Es. intros _ p Hp. lia. }
    pose proof (next_start_gt s) as Hgt.
    pose proof (window_end_mono s) as Hmono.
    pose proof (window_end_gt s Es) as Hwe.
    pose proof (window_end_le_len s) as Hlen.
    pose proof (window_end_le_next s) as Hov.
    pose proof (next_start_cover s) as Hcov.
    destruct (strip (slice text s (we s))) as [|c r] eqn:ST.
    + (* whitespace-only window: nothing appended *)
      apply IH in H as (Hi & Hf & Hs & Hit & Hc).
      split; [exact Hi|]. split.
      { eapply Forall_impl; [|exact Hf]. simpl. intros d Hd. lia. }
      split; [exact Hs|]. split; [lia|].
      intros Hle p Hp Hsp.
      destruct (Nat.lt_ge_cases p (ns s)) as [Hlt|Hge].
      * apply strip_nil_spaces in ST.
        assert (p < we s) by lia.
        rewrite (slice_space s (we s) p ST) in Hsp by lia. discriminate.
      * apply Hc; [lia|lia|exact Hsp].
    + destruct (loop b (S it) (ns s) (S idx)) as [rest it2] eqn:E.
      injection H as <- <-.
      apply IH in E as (Hi & Hf & Hs & Hit & Hc).
      split; [simpl; rewrite Hi; reflexivity|]. split.
      { constructor; [simpl; lia|].
        eapply Forall_impl; [|exact Hf]. simpl. intros d Hd. lia. }
      split.
      { constructor; [exact Hs|].
        destruct rest as [|d rest]; constructor.
        apply Forall_inv in Hf. unfold chunk_rel. simpl. lia. }
      split; [lia|].
      intros Hle p Hp Hsp.
      destruct (Nat.lt_ge_cases p (we s)) as [Hlt|Hge].
      * exists (make_doc generate_chunk_id cfg text meta s idx (c :: r)).
        split; [left; reflexivity|]. simpl. lia.
      * destruct (Hc ltac:(lia) p ltac:(lia) Hsp) as [d [Hd Hr]].
        exists d. split; [right; exact Hd|exact Hr].
Qed.

Lemma start_trace_length budget s : length (start_trace cfg text budget s) <= budget.
Proof. clear Hcfg.
  revert s. induction budget as [|b IH]; intros s; simpl;
    destruct (s <? len); simpl; try lia. specialize (IH (ns s)). lia.
Qed.

Lemma start_trace_advance budget s :
  Forall (fun x => x < ns x) (start_trace cfg text budget s).
Proof. clear Hcfg.
  revert s. induction budget as [|b IH]; intros s; simpl;
    destruct (s <? len); auto. constructor; [apply next_start_gt|apply IH].
Qed.

(** The counter [iteration] ends at the number of loop bodies run, plus one
    when the safety check breaks the loop. *)
Lemma chunk_loop_iterations budget it s idx :
  length (start_trace cfg text budget s) + it <= snd (loop budget it s idx) <=
  S (length (start_trace cfg text budget s) + it).
Proof. clear Hcfg.
  revert it s idx. induction budget as [|b IH]; intros it s idx; simpl;
    destruct (s <? len); simpl; try lia.
  destruct (strip (slice text s (we s))) as [|c r].
  - specialize (IH (S it) (ns s) idx). lia.
  - specialize (IH (S it) (ns s) (S idx)).
    destruct (loop b (S it) (ns s) (S idx)) as [rest it2]. simpl in *. lia.
Qed.

End ChunkFacts.

(* ================================================================== *)
(** * Facts about the vector store and the facade *)

Lemma filter_length_le {A} (f : A -> bool) l : length (filter f l) <= length l.
Proof. induction l as [|a l IH]; simpl; [lia|]. destruct (f a); simpl; lia. Qed.

Lemma filter_length_lt {A} (f : A -> bool) l x :
  In x l -> f x = false -> length (filter f l) < length l.
Proof.
  induction l as [|a l IH]; simpl; [tauto|]. intros [->|Hin] Hf.
  - rewrite Hf. pose proof (filter_length_le f l). lia.
  - destruct (f a); simpl; [specialize (IH Hin Hf); lia|].
    pose proof (filter_length_le f l). lia.
Qed.

Lemma in_file_paths fp c :
  In fp (get_all_file_paths c) <-> exists r, In r c /\ rec_file_path r = fp.
Proof.
  unfold get_all_file_paths. rewrite nodup_In, in_map_iff.
  split; intros [r [H1 H2]]; exists r; auto.
Qed.

(** After [delete_by_file fp], no record of [fp] is left. *)
Lemma delete_by_file_absent fp c r :
  In r (delete_by_file fp c) -> rec_file_path r <> fp.
Proof.
  unfold delete_by_file.
  destruct (map rid (filter (fun r => String.eqb (rec_file_path r) fp) c))
    as [|i ids] eqn:E.
  - intros Hr Heq. apply map_eq_nil in E.
    assert (Hf : In r (filter (fun r => String.eqb (rec_file_path r) fp) c))
      by (apply filter_In; split; [exact Hr|apply String.eqb_eq, Heq]).
    rewrite E in Hf. exact Hf.
  - intros Hr Heq. rewrite <- E in Hr.
    apply filter_In in Hr as [Hr Hneg].
    assert (Hid : In (rid r)
                   (map rid (filter (fun r => String.eqb (rec_file_path r) fp) c))).
    { apply in_map, filter_In. split; [exact Hr|apply String.eqb_eq, Heq]. }
    assert (Hex : existsb (String.eqb (rid r))
                   (map rid (filter (fun r => String.eqb (rec_file_path r) fp) c))
                  = true).
    { apply existsb_exists. exists (rid r). split; [exact Hid|apply String.eqb_refl]. }
    rewrite Hex in Hneg. discriminate.
Qed.

(** [delete_by_file fp] removes at least one record when [fp] is stored. *)
Lemma delete_by_file_shrinks fp c :
  In fp (get_all_file_paths c) -> length (delete_by_file fp c) < length c.
Proof.
  intros H. apply in_file_paths in H as [r [Hr Hp]].
  unfold delete_by_file.
  assert (Hid : In (rid r)
                 (map rid (filter (fun r => String.eqb (rec_file_path r) fp) c))).
  { apply in_map, filter_In. split; [exact Hr|apply String.eqb_eq, Hp]. }
  destruct (map rid (filter (fun r => String.eqb (rec_file_path r) fp) c))
    as [|i ids] eqn:E; [destruct Hid|].
  rewrite <- E in Hid |- *. apply (filter_length_lt _ _ r Hr).
  rewrite negb_false_iff. apply existsb_exists.
  exists (rid r). split; [exact Hid|apply String.eqb_refl].
Qed.

Lemma make_records_length ids embs texts metas :
  length ids = length embs -> length ids = length texts ->
  length ids = length metas ->
  length (make_records ids embs texts metas) = length ids.
Proof.
  revert embs texts metas.
  induction ids as [|i ids IH]; intros embs texts metas H1 H2 H3; [reflexivity|].
  destruct embs, texts, metas; simpl in *; try discriminate.
  rewrite IH; lia.
Qed.

(** [append_add] adds one record per id. *)
Lemma append_add_count ids embs texts metas c c' :
  append_add ids embs texts metas c = Some c' -> length c' = length c + length ids.
Proof.
  unfold append_add.
  destruct ((length ids =? length embs) && (length ids =? length texts) &&
            (length ids =? length metas)) eqn:E; [|discriminate].
  intros H. injection H as <-.
  apply andb_prop in E as [E E3]. apply andb_prop in E as [E1 E2].
  apply Nat.eqb_eq in E1, E2, E3.
  rewrite length_app, make_records_length; auto.
Qed.

Lemma make_records_length_le ids embs texts metas :
  length (make_records ids embs texts metas) <= length ids.
Proof.
  revert embs texts metas.
  induction ids as [|i ids IH]; intros embs texts metas; [simpl; lia|].
  destruct embs, texts, metas; simpl; try lia. specialize (IH embs texts metas). lia.
Qed.

Lemma make_records_rid ids embs texts metas r :
  In r (make_records ids embs texts metas) -> In (rid r) ids.
Proof.
  revert embs texts metas.
  induction ids as [|i ids IH]; intros embs texts metas; [simpl; tauto|].
  destruct embs, texts, metas; simpl; try tauto.
  intros [<-|H]; [left; reflexivity|right; exact (IH _ _ _ H)].
Qed.

(** [chroma_add] raises on lists of different lengths. *)
Lemma chroma_add_unequal ids embs texts metas c :
  ~ (length ids = length embs /\ length ids = length texts /\ length ids = length metas) ->
  chroma_add ids embs texts metas c = None.
Proof.
  intros H. unfold chroma_add.
  destruct (length ids =? length embs) eqn:E1; [|reflexivity].
  destruct (length ids =? length texts) eqn:E2; [|reflexivity].
  destruct (length ids =? length metas) eqn:E3; [|reflexivity].
  apply Nat.eqb_eq in E1, E2, E3. tauto.
Qed.

(** [chroma_add] stores at most one record per id. *)
Lemma chroma_add_count ids embs texts metas c c' :
  chroma_add ids embs texts metas c = Some c' -> length c' <= length c + length ids.
Proof.
  unfold chroma_add. destruct (_ && _ && _ && _); [|discriminate].
  intros H. injection H as <-. rewrite length_app.
  pose proof (filter_length_le (fun r => negb (existsb (String.eqb (rid r)) (map rid c)))
                (make_records ids embs texts metas)).
  pose proof (make_records_length_le ids embs texts metas). lia.
Qed.

(** [chroma_add] appends a record per id when no id is stored yet. *)
Lemma chroma_add_fresh ids embs texts metas c c' :
  (forall i, In i ids -> ~ In i (map rid c)) ->
  chroma_add ids embs texts metas c = Some c' -> c' = c ++ make_records ids embs texts metas.
Proof.
  intros Hf. unfold chroma_add. destruct (_ && _ && _ && _); [|discriminate].
  intros H. injection H as <-. f_equal.
  apply forallb_filter_id, forallb_forall. intros r Hr.
  apply negb_true_iff, Bool.not_true_iff_false. intros Hx.
  apply existsb_exists in Hx as [x [Hx Hxe]]. apply String.eqb_eq in Hxe. subst x.
  exact (Hf _ (make_records_rid _ _ _ _ _ Hr) Hx).
Qed.

(** [first_k_query] returns at most [n] rows. *)
Lemma first_k_query_bound q n w c ids docs metas dists :
  first_k_query q n w c = Some (ids, docs, metas, dists) ->
  (Z.of_nat (length ids) <= n /\ Z.of_nat (length docs) <= n /\
   Z.of_nat (length metas) <= n /\ Z.of_nat (length dists) <= n)%Z.
Proof.
  unfold first_k_query. destruct (n <=? 0)%Z eqn:E; [discriminate|].
  apply Z.leb_gt in E. intros H. injection H as <- <- <- <-.
  rewrite !length_map, length_firstn. lia.
Qed.

Section RagFacts.

Variable absolute : string -> string.
Variable parse_file : string -> option (list ascii).
Variable extract_metadata : string -> file_meta.
Variable generate_chunk_id : string -> nat -> string.
Variable file_hash : string -> string.
Variable embed : list ascii -> embedding.
Variable collection_add :
  list string -> list embedding -> list (list ascii) -> list chunk_meta ->
  collection -> option collection.
Variable cfg : rag_config.

Local Abbreviation chunks_step :=
  (index_chunks parse_file extract_metadata generate_chunk_id file_hash embed
     collection_add cfg).

(** When steps 1-3 of [index_file] fail, the collection is the one they
    started from. *)
Lemma index_chunks_false_store fp n st1 st' :
  chunks_step fp n st1 = (false, st') -> store st' = store st1.
Proof.
  unfold index_chunks.
  repeat match goal with
         | |- context [match ?x with _ => _ end] => destruct x eqn:?
         end;
    intros H; inversion H; subst; reflexivity.
Qed.

End RagFacts.

(* ================================================================== *)
(** * Claims *)

Lemma forallb_nth_space l p :
  forallb is_space l = true -> p < length l -> is_space (nth p l " "%char) = true.
Proof. rewrite forallb_forall. intros H Hp. apply H, nth_In, Hp. Qed.

(** C3 (amended). For [chunk_size > overlap], the chunks returned by
    [chunk_text] have [chunk_index] 0, 1, 2, ...; each range satisfies
    [start_char < end_char <= len(text)]; consecutive chunks have strictly
    increasing [start_char], non-decreasing [end_char] and overlap by at most
    [overlap]; and, unless the safety limit aborted the loop, every
    non-whitespace character of the text lies in some chunk's range.
    Whitespace-only windows are not emitted, so the ranges need not cover
    [0, len(text)). *)
Theorem chunk_text_structure (gen : string -> nat -> string) (cfg : indexer_cfg)
    (text : list ascii) (meta : file_meta) :
  overlap cfg < chunk_size cfg ->
  chunk_indices (chunk_text gen cfg text meta) =
    seq 0 (length (chunk_text gen cfg text meta)) /\
  Forall (fun d => start_char (metadata d) < end_char (metadata d) <= length text)
    (chunk_text gen cfg text meta) /\
  Sorted (chunk_rel (overlap cfg)) (chunk_text gen cfg text meta) /\
  (chunking_aborted gen cfg text meta = false ->
   forall p, p < length text -> is_space (nth p text " "%char) = false ->
   covered (chunk_text gen cfg text meta) p).
Proof.
  intros Hcfg. unfold chunk_text, chunking_aborted, chunk_text_run.
  destruct (strip text) as [|c r] eqn:ST.
  - simpl. split; [reflexivity|]. split; [constructor|]. split; [constructor|].
    intros _ p Hp Hsp. apply strip_nil_spaces in ST.
    rewrite (forallb_nth_space text p ST Hp) in Hsp. discriminate.
  - destruct (chunk_loop gen cfg text meta (max_iterations cfg text) 0 0 0)
      as [L it] eqn:E. simpl.
    apply (chunk_loop_invariant gen cfg text meta Hcfg) in E
      as (Hi & Hf & Hs & Hit & Hc).
    split; [exact Hi|]. split.
    { eapply Forall_impl; [|exact Hf]. simpl. intros d Hd. lia. }
    split; [exact Hs|].
    intros Hab p Hp Hsp. apply Nat.ltb_ge in Hab.
    apply Hc; [lia|lia|exact Hsp].
Qed.

Lemma chunk_text_structure_witness :
  overlap {| chunk_size := 2; overlap := 0 |} <
    chunk_size {| chunk_size := 2; overlap := 0 |} /\
  (let c := {| chunk_size := 2; overlap := 0 |} in
   let t := str "ab  cd" in
   let m := meta_of path_f in
   chunk_indices (chunk_text cid c t m) = seq 0 (length (chunk_text cid c t m)) /\
   Forall (fun d => start_char (metadata d) < end_char (metadata d) <= length t)
     (chunk_text cid c t m) /\
   Sorted (chunk_rel (overlap c)) (chunk_text cid c t m) /\
   (chunking_aborted cid c t m = false ->
    forall p, p < length t -> is_space (nth p t " "%char) = false ->
    covered (chunk_text cid c t m) p)).
Proof.
  split; [simpl; lia|].
  exact (chunk_text_structure cid {| chunk_size := 2; overlap := 0 |}
           (str "ab  cd") (meta_of path_f) ltac:(simpl; lia)).
Defined.

(** C3 counterexample. With [chunk_size = 2], [overlap = 0] and the text
    ["ab  cd"], the window [2, 4) is whitespace only and is not emitted: the
    chunks are [0, 2) and [4, 6), and position 2 is in no chunk's range. *)
Lemma chunk_text_gap :
  ~ (forall p, p < length (str "ab  cd") ->
     covered (chunk_text cid {| chunk_size := 2; overlap := 0 |}
                (str "ab  cd") (meta_of path_f)) p).
Proof.
  intros H. destruct (H 2 ltac:(simpl; lia)) as [d [Hd Hr]].
  vm_compute in Hd. destruct Hd as [<-|[<-|[]]]; simpl in Hr; lia.
Qed.

(** C7 (amended). [chunk_text] terminates for every text and configuration:
    the loop body runs at most [max_iterations = len(text) // (overlap+1) +
    100] times, the counter [iteration] ends at the number of bodies run or
    one more when the safety check breaks the loop, and every body advances
    [start] by at least one character (not necessarily [overlap + 1]). *)
Theorem chunk_text_bounded (gen : string -> nat -> string) (cfg : indexer_cfg)
    (text : list ascii) (meta : file_meta) :
  length (chunk_starts cfg text) <= max_iterations cfg text /\
  length (chunk_starts cfg text) <= snd (chunk_text_run gen cfg text meta) <=
    S (length (chunk_starts cfg text)) /\
  Forall (fun s => s < next_start cfg text s) (chunk_starts cfg text).
Proof.
  unfold chunk_starts, chunk_text_run.
  destruct (strip text) as [|c r].
  - simpl. split; [lia|]. split; [lia|constructor].
  - pose proof (chunk_loop_iterations gen cfg text meta
                  (max_iterations cfg text) 0 0 0) as H.
    pose proof (start_trace_length cfg text (max_iterations cfg text) 0).
    split; [lia|]. split; [lia|]. apply start_trace_advance.
Qed.

(** C7 counterexample. With [chunk_size = 2], [overlap = 1] and the text
    ["abcde"], the loop runs from [start] = 0, 1, 2, 3, 4: the first step
    advances by 1 < overlap + 1, and the safety limit does not abort. *)
Lemma chunk_advance_below_overlap :
  ~ (length (chunk_starts {| chunk_size := 2; overlap := 1 |} (str "abcde")) <=
       max_iterations {| chunk_size := 2; overlap := 1 |} (str "abcde") /\
     (Forall (fun s => s + (1 + 1) <=
                next_start {| chunk_size := 2; overlap := 1 |} (str "abcde") s)
        (chunk_starts {| chunk_size := 2; overlap := 1 |} (str "abcde")) \/
      chunking_aborted cid {| chunk_size := 2; overlap := 1 |} (str "abcde")
        (meta_of path_f) = true)).
Proof.
  assert (E : chunk_starts {| chunk_size := 2; overlap := 1 |} (str "abcde")
              = [0; 1; 2; 3; 4]) by reflexivity.
  assert (E0 : next_start {| chunk_size := 2; overlap := 1 |} (str "abcde") 0 = 1)
    by reflexivity.
  assert (A : chunking_aborted cid {| chunk_size := 2; overlap := 1 |}
                (str "abcde") (meta_of path_f) = false) by reflexivity.
  rewrite E, A. intros [_ [H|H]]; [|discriminate].
  inversion H as [|x l Hx _]. rewrite E0 in Hx. lia.
Qed.

(** With [chunk_size = overlap + 1] the cap is reached: 300 characters,
    [overlap = 1], cap [300 // 2 + 100 = 250] iterations. *)
Example chunking_cap_reached :
  chunking_aborted cid {| chunk_size := 2; overlap := 1 |}
    (repeat "a"%char 300) (meta_of path_f) = true.
Proof. vm_compute. reflexivity. Qed.

(** C1 (code_bug). [clear_index] empties the collection, the embedding cache
    and the active-file set but leaves the [get_context] cooldown cache
    ([_last_context_time], [_last_context_query], [_last_context_result])
    untouched. Scenario: one record stored, [get_context("q")] at time 0,
    [clear_index()], [get_context("q")] at time 1: the second call returns
    the context computed before the clear, whereas a freshly constructed
    instance would run retrieval on the empty index. This holds for every
    retriever and context builder. *)
Theorem clear_index_stale_context
    (retrieve : collection -> list string -> string -> context_params ->
                list RetrievalResult)
    (build : list RetrievalResult -> string -> string -> FormattedContext) :
  let cfg := cfg_of 300 30 1000 100 in
  let st0 := state_with [rec_of path_f 0] in
  let fc0 := fst (get_context retrieve build cfg st0 "q" (params_k 5) 0) in
  let st1 := snd (get_context retrieve build cfg st0 "q" (params_k 5) 0) in
  store (clear_index st1) = [] /\ cache (clear_index st1) = [] /\
  active_files (clear_index st1) = [] /\
  fc0 = build (retrieve [rec_of path_f 0] [] "q" (params_k 5)) "q" "detailed" /\
  fst (get_context retrieve build cfg (clear_index st1) "q" (params_k 5) 1) = fc0 /\
  fst (get_context retrieve build cfg fresh_state "q" (params_k 5) 1) =
    build (retrieve [] [] "q" (params_k 5)) "q" "detailed".
Proof. repeat split; reflexivity. Qed.

(** C2. When the four lists of [add_documents] do not all have the same
    length, the call raises and adds nothing, on a backend that, as
    ChromaDB's [collection.add], raises on lists of different lengths. The
    guard of [add_documents] is the chained comparison [len(a) != len(b) !=
    len(c) != len(d)] (that is [a != b and b != c and c != d]), so for
    lengths such as (1, 1, 2, 2) the error is the backend's [ValueError],
    re-raised by [add_documents]; otherwise it is the guard's. Equivalently,
    a call returns normally only when the four lengths are equal. *)
Theorem add_documents_unequal_lengths
    (collection_add : list string -> list embedding -> list (list ascii) ->
                      list chunk_meta -> collection -> option collection)
    (Hshape : forall ids embs texts metas c,
        ~ (length ids = length embs /\ length ids = length texts /\
           length ids = length metas) ->
        collection_add ids embs texts metas c = None) :
  (forall ids texts embs metas c,
      ~ (length ids = length texts /\ length texts = length embs /\
         length embs = length metas) ->
      exists e, add_documents collection_add ids texts embs metas c = Err e) /\
  (forall ids texts embs metas c c',
      add_documents collection_add ids texts embs metas c = Ok c' ->
      length ids = length texts /\ length texts = length embs /\
      length embs = length metas).
Proof.
  assert (Hok : forall ids texts embs metas c c',
      add_documents collection_add ids texts embs metas c = Ok c' ->
      length ids = length texts /\ length texts = length embs /\
      length embs = length metas).
  { intros ids texts embs metas c c'. unfold add_documents.
    destruct (shape_guard ids texts embs metas); [discriminate|].
    destruct (collection_add ids embs texts metas c) as [c''|] eqn:A; [|discriminate].
    intros _.
    destruct (Nat.eq_dec (length ids) (length embs)) as [E1|E1];
    [destruct (Nat.eq_dec (length ids) (length texts)) as [E2|E2];
     [destruct (Nat.eq_dec (length ids) (length metas)) as [E3|E3]|]|].
    - lia.
    - rewrite Hshape in A; [discriminate|tauto].
    - rewrite Hshape in A; [discriminate|tauto].
    - rewrite Hshape in A; [discriminate|tauto]. }
  split; [|exact Hok].
  intros ids texts embs metas c Hne.
  destruct (add_documents collection_add ids texts embs metas c) as [c'|e] eqn:A.
  - exfalso. exact (Hne (Hok _ _ _ _ _ _ A)).
  - exists e. reflexivity.
Qed.

Lemma add_documents_unequal_lengths_witness :
  (forall ids embs texts metas c,
      ~ (length ids = length embs /\ length ids = length texts /\
         length ids = length metas) ->
      chroma_add ids embs texts metas c = None) /\
  ((forall ids texts embs metas c,
       ~ (length ids = length texts /\ length texts = length embs /\
          length embs = length metas) ->
       exists e, add_documents chroma_add ids texts embs metas c = Err e) /\
   (forall ids texts embs metas c c',
       add_documents chroma_add ids texts embs metas c = Ok c' ->
       length ids = length texts /\ length texts = length embs /\
       length embs = length metas)).
Proof.
  split; [exact chroma_add_unequal|].
  exact (add_documents_unequal_lengths chroma_add chroma_add_unequal).
Defined.

Section IndexFileClaims.

Variable absolute : string -> string.
Variable parse_file : string -> option (list ascii).
Variable extract_metadata : string -> file_meta.
Variable generate_chunk_id : string -> nat -> string.
Variable file_hash : string -> string.
Variable embed : list ascii -> embedding.
Variable collection_add :
  list string -> list embedding -> list (list ascii) -> list chunk_meta ->
  collection -> option collection.
Variable cfg : rag_config.

Local Abbreviation idx_file :=
  (index_file absolute parse_file extract_metadata generate_chunk_id file_hash
     embed collection_add cfg).
Local Abbreviation parsed :=
  (indexer_index_file parse_file extract_metadata generate_chunk_id cfg).

(** C4 (amended). Without [force_reindex], on a file not yet in the index,
    if the current count plus the file's chunk count after truncation to
    [max_chunks_per_file] exceeds [max_documents], [index_file] returns
    [False] and leaves the whole state (collection and embedding cache)
    unchanged. *)
Theorem index_file_limit (st : rag_state) (path : string) :
  ~ In (absolute path) (get_all_file_paths (store st)) ->
  max_documents cfg < get_document_count (store st) +
    Nat.min (length (parsed (absolute path))) (max_chunks_per_file cfg) ->
  idx_file st path false = (false, st).
Proof.
  intros Hnew Hover. unfold index_file.
  destruct (max_documents cfg <=? get_document_count (store st)) eqn:E;
    [reflexivity|]. simpl.
  destruct (existsb (String.eqb (absolute path)) (get_all_file_paths (store st)))
    eqn:X.
  { apply existsb_exists in X as [x [Hx Heq]].
    apply String.eqb_eq in Heq. subst x. contradiction. }
  unfold index_chunks.
  destruct (parsed (absolute path)) as [|d ds] eqn:P; [reflexivity|].
  destruct (max_chunks_per_file cfg <? length (d :: ds)) eqn:M.
  - apply Nat.ltb_lt in M.
    assert (L : (max_documents cfg <? get_document_count (store st) +
                  length (firstn (max_chunks_per_file cfg) (d :: ds))) = true)
      by (apply Nat.ltb_lt; rewrite length_firstn; lia).
    rewrite L. reflexivity.
  - apply Nat.ltb_ge in M.
    assert (L : (max_documents cfg <? get_document_count (store st) +
                  length (d :: ds)) = true) by (apply Nat.ltb_lt; lia).
    rewrite L. reflexivity.
Qed.

(** C5 (amended). Without [force_reindex], on a file already in the index,
    [index_file] changes nothing and returns [True] exactly when the
    document count is below [max_documents] ([False] otherwise, from the
    document-limit check that runs first). *)
Theorem index_file_already_indexed (st : rag_state) (path : string) :
  In (absolute path) (get_all_file_paths (store st)) ->
  idx_file st path false =
    (get_document_count (store st) <? max_documents cfg, st).
Proof.
  intros Hin. unfold index_file.
  destruct (max_documents cfg <=? get_document_count (store st)) eqn:E; simpl.
  - apply Nat.leb_le in E.
    assert (L : (get_document_count (store st) <? max_documents cfg) = false)
      by (apply Nat.ltb_ge; exact E).
    rewrite L. reflexivity.
  - apply Nat.leb_gt in E.
    assert (X : existsb (String.eqb (absolute path))
                  (get_all_file_paths (store st)) = true).
    { apply existsb_exists. exists (absolute path).
      split; [exact Hin|apply String.eqb_refl]. }
    rewrite X.
    assert (L : (get_document_count (store st) <? max_documents cfg) = true)
      by (apply Nat.ltb_lt; exact E).
    rewrite L. reflexivity.
Qed.

(** C9. With [force_reindex] on a file already in the index, the file's
    records are deleted before parsing and the limit checks; when the call
    then returns [False], no record of the file is left, the file is no
    longer listed, and the document count is lower than before. *)
Theorem index_file_force_failure (st : rag_state) (path : string) :
  In (absolute path) (get_all_file_paths (store st)) ->
  fst (idx_file st path true) = false ->
  (forall r, In r (store (snd (idx_file st path true))) ->
             rec_file_path r <> absolute path) /\
  ~ In (absolute path) (get_all_file_paths (store (snd (idx_file st path true)))) /\
  get_document_count (store (snd (idx_file st path true))) <
    get_document_count (store st).
Proof.
  intros Hin. unfold index_file. rewrite andb_false_r. simpl.
  destruct (index_chunks parse_file extract_metadata generate_chunk_id file_hash
              embed collection_add cfg (absolute path)
              (get_document_count (store st))
              (set_store st (delete_by_file (absolute path) (store st))))
    as [b st'] eqn:E.
  simpl. intros ->.
  apply index_chunks_false_store in E. rewrite E. simpl.
  split; [|split].
  - intros r Hr. apply (delete_by_file_absent _ _ _ Hr).
  - intros H. apply in_file_paths in H as [r [Hr Hp]].
    exact (delete_by_file_absent _ _ _ Hr Hp).
  - apply delete_by_file_shrinks, Hin.
Qed.

End IndexFileClaims.

Lemma index_file_limit_witness :
  ~ In path_f (get_all_file_paths (store fresh_state)) /\
  max_documents (cfg_of 2 0 5 100) <
    get_document_count (store fresh_state) +
    Nat.min (length (indexer_index_file (fs_with text6) meta_of cid
                       (cfg_of 2 0 5 100) path_f))
            (max_chunks_per_file (cfg_of 2 0 5 100)) /\
  run_index (cfg_of 2 0 5 100) text6 fresh_state false = (false, fresh_state).
Proof.
  split; [simpl; tauto|]. split; [vm_compute; lia|].
  apply (index_file_limit (fun p => p) (fs_with text6) meta_of cid (fun p => p)
           embed1 append_add (cfg_of 2 0 5 100) fresh_state path_f);
    [simpl; tauto | vm_compute; lia].
Defined.

(** C4 counterexample. [max_documents = 5], [max_chunks_per_file = 3], an
    empty index and a file that chunks into 6 pieces (0 + 6 > 5): the chunks
    are truncated to 3 before the limit check, and [index_file] returns
    [True] with 3 documents stored. *)
Lemma index_file_limit_truncated :
  length (indexer_index_file (fs_with text6) meta_of cid (cfg_of 2 0 5 3) path_f)
    = 6 /\
  fst (run_index (cfg_of 2 0 5 3) text6 fresh_state false) = true /\
  get_document_count (store (snd (run_index (cfg_of 2 0 5 3) text6 fresh_state false)))
    = 3.
Proof. vm_compute. split; [reflexivity|split; reflexivity]. Qed.

Lemma index_file_already_indexed_witness :
  In path_f (get_all_file_paths (recs_f 1)) /\
  run_index (cfg_of 2 0 5 100) text6 (state_with (recs_f 1)) false =
    (get_document_count (store (state_with (recs_f 1))) <?
       max_documents (cfg_of 2 0 5 100), state_with (recs_f 1)).
Proof.
  split; [vm_compute; left; reflexivity|].
  apply (index_file_already_indexed (fun p => p) (fs_with text6) meta_of cid
           (fun p => p) embed1 append_add (cfg_of 2 0 5 100)
           (state_with (recs_f 1)) path_f).
  vm_compute. left. reflexivity.
Defined.

(** C5 counterexample. [max_documents = 5] and the file already stored with
    5 chunks: [index_file] without [force_reindex] returns [False], since the
    document-limit check runs before the already-indexed check. *)
Lemma index_file_indexed_at_limit :
  In path_f (get_all_file_paths (recs_f 5)) /\
  run_index (cfg_of 2 0 5 100) text6 (state_with (recs_f 5)) false =
    (false, state_with (recs_f 5)).
Proof. split; [vm_compute; left; reflexivity | reflexivity]. Qed.

Lemma index_file_force_failure_witness :
  In path_f (get_all_file_paths (store (state_with (recs_f 1)))) /\
  fst (run_index (cfg_of 2 0 5 100) (str "   ") (state_with (recs_f 1)) true)
    = false /\
  ((forall r, In r (store (snd (run_index (cfg_of 2 0 5 100) (str "   ")
                                  (state_with (recs_f 1)) true))) ->
              rec_file_path r <> path_f) /\
   ~ In path_f (get_all_file_paths
                  (store (snd (run_index (cfg_of 2 0 5 100) (str "   ")
                                 (state_with (recs_f 1)) true)))) /\
   get_document_count (store (snd (run_index (cfg_of 2 0 5 100) (str "   ")
                                     (state_with (recs_f 1)) true))) <
     get_document_count (store (state_with (recs_f 1)))).
Proof.
  split; [vm_compute; left; reflexivity|]. split; [reflexivity|].
  apply (index_file_force_failure (fun p => p) (fs_with (str "   ")) meta_of cid
           (fun p => p) embed1 append_add (cfg_of 2 0 5 100)
           (state_with (recs_f 1)) path_f);
    [vm_compute; left; reflexivity | reflexivity].
Defined.

(** C6 (amended). A [get_context] call whose query equals the stored
    [_last_context_query], made less than the cooldown after the stored
    [_last_context_time], with a stored result, returns that result and
    leaves the state unchanged, whatever its other arguments. Since a cache
    hit does not update [_last_context_time], the window runs from the last
    call that performed retrieval, not from the previous call. *)
Theorem get_context_cache_hit
    (retrieve : collection -> list string -> string -> context_params ->
                list RetrievalResult)
    (build : list RetrievalResult -> string -> string -> FormattedContext)
    (cfg : rag_config) (st : rag_state) (query : string)
    (params : context_params) (now : Q) (r : FormattedContext) :
  query = last_context_query st ->
  (now - last_context_time st < context_cooldown cfg)%Q ->
  last_context_result st = Some r ->
  get_context retrieve build cfg st query params now = (r, st).
Proof.
  intros -> Hlt Hr. unfold get_context, context_cache_hit.
  rewrite String.eqb_refl. simpl.
  destruct (Qle_bool (context_cooldown cfg) (now - last_context_time st)) eqn:E.
  - apply Qle_bool_iff in E. exfalso. apply (Qlt_not_le _ _ Hlt E).
  - simpl. rewrite Hr. reflexivity.
Qed.

Definition ctx_cfg : rag_config := cfg_of 300 30 1000 100.
Definition ctx_st0 : rag_state := state_with (recs_f 2).
Definition ctx_call (st : rag_state) (k : Z) (now : Q) : FormattedContext * rag_state :=
  get_context take_retrieve list_build ctx_cfg st "q" (params_k k) now.

Lemma get_context_cache_hit_witness :
  "q" = last_context_query (snd (ctx_call ctx_st0 1 0)) /\
  (1 - last_context_time (snd (ctx_call ctx_st0 1 0)) < context_cooldown ctx_cfg)%Q /\
  last_context_result (snd (ctx_call ctx_st0 1 0)) =
    Some (fst (ctx_call ctx_st0 1 0)) /\
  get_context take_retrieve list_build ctx_cfg (snd (ctx_call ctx_st0 1 0)) "q"
    (params_k 2) 1 = (fst (ctx_call ctx_st0 1 0), snd (ctx_call ctx_st0 1 0)).
Proof.
  split; [reflexivity|]. split; [vm_compute; reflexivity|].
  split; [reflexivity|].
  apply get_context_cache_hit; [reflexivity | vm_compute; reflexivity | reflexivity].
Defined.

(** C6 counterexample. Calls with the query ["q"] at 0 s ([top_k = 1],
    retrieval), 1.5 s ([top_k = 1], cache hit) and 2.5 s ([top_k = 2]): the
    third call comes 1 s after the second, the query is the same and a
    result is stored, yet it performs retrieval again (2.5 - 0 >= 2) and
    returns a different context, with two chunks instead of one. *)
Lemma get_context_window_from_retrieval :
  let st1 := snd (ctx_call ctx_st0 1 0) in
  let st2 := snd (ctx_call st1 1 (3 # 2)) in
  last_context_time st2 = 0%Q /\
  last_context_result st2 <> None /\
  fst (ctx_call st2 2 (5 # 2)) <> fst (ctx_call st1 1 (3 # 2)) /\
  length (fc_chunks (fst (ctx_call st2 2 (5 # 2)))) = 2 /\
  last_context_time (snd (ctx_call st2 2 (5 # 2))) = (5 # 2)%Q.
Proof.
  vm_compute. split; [reflexivity|]. split; [discriminate|].
  split; [discriminate|]. split; reflexivity.
Qed.

(** C8. [VectorStore.search] on an empty collection returns four empty
    lists; otherwise it asks the backend for [n_results = min(top_k, count)
    <= count] rows, so, for a backend returning at most [n_results] rows,
    none of the four returned lists is longer than the collection. *)
Theorem search_bounded
    (collection_query : embedding -> Z -> option where_filter -> collection ->
       option (list string * list (list ascii) * list chunk_meta * list Q))
    (Hq : forall q n w c ids docs metas dists,
        collection_query q n w c = Some (ids, docs, metas, dists) ->
        (Z.of_nat (length ids) <= n /\ Z.of_nat (length docs) <= n /\
         Z.of_nat (length metas) <= n /\ Z.of_nat (length dists) <= n)%Z)
    (q : embedding) (k : Z) (w : option where_filter) (c : collection) :
  (c = [] -> search collection_query q k w c = ([], [], [], [])) /\
  (n_results k (length c) <= Z.of_nat (length c))%Z /\
  (let '(ids, docs, metas, sims) := search collection_query q k w c in
   length ids <= length c /\ length docs <= length c /\
   length metas <= length c /\ length sims <= length c).
Proof.
  split; [intros ->; reflexivity|].
  split; [unfold n_results; lia|].
  unfold search.
  destruct (length c =? 0) eqn:E; [simpl; lia|].
  destruct (collection_query q (n_results k (length c)) w c)
    as [[[[ids docs] metas] dists]|] eqn:Q; [|simpl; lia].
  apply Hq in Q. unfold n_results in Q. rewrite length_map. lia.
Qed.

Lemma search_bounded_witness :
  (forall q n w c ids docs metas dists,
      first_k_query q n w c = Some (ids, docs, metas, dists) ->
      (Z.of_nat (length ids) <= n /\ Z.of_nat (length docs) <= n /\
       Z.of_nat (length metas) <= n /\ Z.of_nat (length dists) <= n)%Z) /\
  ((recs_f 2 = [] -> search first_k_query [1%Q] 5 None (recs_f 2) = ([], [], [], [])) /\
   (n_results 5 (length (recs_f 2)) <= Z.of_nat (length (recs_f 2)))%Z /\
   (let '(ids, docs, metas, sims) := search first_k_query [1%Q] 5 None (recs_f 2) in
    length ids <= length (recs_f 2) /\ length docs <= length (recs_f 2) /\
    length metas <= length (recs_f 2) /\ length sims <= length (recs_f 2))).
Proof.
  split; [exact first_k_query_bound|].
  exact (search_bounded first_k_query first_k_query_bound [1%Q] 5 None (recs_f 2)).
Defined.

(** C10 (amended). [add_documents] with four empty lists raises
    [ValueError] (the [not chunk_ids] test), although the lengths are equal;
    so every call that returns normally was given at least one id. It need
    not insert a record: ChromaDB skips ids already in the collection. *)
Theorem add_documents_nonempty
    (collection_add : list string -> list embedding -> list (list ascii) ->
                      list chunk_meta -> collection -> option collection) :
  (forall c, add_documents collection_add [] [] [] [] c = Err ShapeMismatch) /\
  (forall ids texts embs metas c c',
      add_documents collection_add ids texts embs metas c = Ok c' -> ids <> []).
Proof.
  split; [reflexivity|].
  intros ids texts embs metas c c'. unfold add_documents.
  destruct ids as [|i ids]; [discriminate|]. intros _. discriminate.
Qed.

(** C10 counterexample. On a backend that behaves as ChromaDB's, adding a
    chunk whose id is already stored succeeds and inserts no record. *)
Lemma add_documents_existing_id :
  ~ (forall ids texts embs metas c c',
        add_documents chroma_add ids texts embs metas c = Ok c' ->
        length c < length c').
Proof.
  intros H.
  assert (E : add_documents chroma_add [cid path_f 0] [str "y"] [[1%Q]]
                [cmeta path_f 0] (recs_f 1) = Ok (recs_f 1))
    by (vm_compute; reflexivity).
  specialize (H _ _ _ _ _ _ E). simpl in H. lia.
Qed.

(* ================================================================== *)
(** * Further properties of the code *)

(** ** The chunker *)

Section ChunkExtras.

Variable generate_chunk_id : string -> nat -> string.
Variable cfg : indexer_cfg.
Variable text : list ascii.
Variable meta : file_meta.

Local Abbreviation len := (length text).
Local Abbreviation we := (window_end cfg text).
Local Abbreviation loop := (chunk_loop generate_chunk_id cfg text meta).
Local Abbreviation mk := (make_doc generate_chunk_id cfg text meta).

(** Every chunk the loop appends is built by [make_doc] from a window
    whose stripped text is non-empty. *)
Lemma chunk_loop_forall (P : Document -> Prop) :
  (forall s idx ct, strip (slice text s (we s)) = ct -> ct <> [] -> P (mk s idx ct)) ->
  forall budget it s idx L it', loop budget it s idx = (L, it') -> Forall P L.
Proof.
  intros HP budget. induction budget as [|b IH]; intros it s idx L it' H; simpl in H.
  - destruct (s <? len); injection H as <- _; constructor.
  - destruct (s <? len); [|injection H as <- _; constructor].
    destruct (strip (slice text s (we s))) as [|c r] eqn:ST.
    + exact (IH _ _ _ _ _ H).
    + destruct (loop b (S it) (next_start cfg text s) (S idx)) as [rest it2] eqn:E.
      injection H as <- _. constructor.
      * apply HP; [exact ST|discriminate].
      * exact (IH _ _ _ _ _ E).
Qed.

Lemma chunk_loop_indices budget it s idx L it' :
  loop budget it s idx = (L, it') -> chunk_indices L = seq idx (length L).
Proof.
  revert it s idx L it'.
  induction budget as [|b IH]; intros it s idx L it' H; simpl in H.
  - destruct (s <? len); injection H as <- _; reflexivity.
  - destruct (s <? len); [|injection H as <- _; reflexivity].
    destruct (strip (slice text s (we s))) as [|c r].
    + exact (IH _ _ _ _ _ H).
    + destruct (loop b (S it) (next_start cfg text s) (S idx)) as [rest it2] eqn:E.
      injection H as <- _. simpl. f_equal. exact (IH _ _ _ _ _ E).
Qed.

Lemma chunk_text_forall (P : Document -> Prop) :
  (forall s idx ct, strip (slice text s (we s)) = ct -> ct <> [] -> P (mk s idx ct)) ->
  Forall P (chunk_text generate_chunk_id cfg text meta).
Proof.
  intros HP. unfold chunk_text, chunk_text_run.
  destruct (strip text); [constructor|].
  destruct (loop (max_iterations cfg text) 0 0 0) as [L it] eqn:E.
  exact (chunk_loop_forall P HP _ _ _ _ _ _ E).
Qed.

Lemma chunk_text_indices :
  chunk_indices (chunk_text generate_chunk_id cfg text meta) =
  seq 0 (length (chunk_text generate_chunk_id cfg text meta)).
Proof.
  unfold chunk_text, chunk_text_run.
  destruct (strip text); [reflexivity|].
  destruct (loop (max_iterations cfg text) 0 0 0) as [L it] eqn:E.
  exact (chunk_loop_indices _ _ _ _ _ _ E).
Qed.

Lemma window_end_le_size s : we s <= s + chunk_size cfg.
Proof.
  unfold window_end.
  destruct (s + chunk_size cfg <? len); [|lia].
  destruct (find_break text s (s + chunk_size cfg)) as [b|] eqn:F; [|lia].
  apply find_break_some in F.
  destruct (s + min_progress cfg <? b); lia.
Qed.

Lemma is_prefix_nth c p i d :
  is_prefix (c :: p) (skipn i text) = true -> nth i text d = c.
Proof.
  intros H. rewrite <- (Nat.add_0_r i), <- nth_skipn.
  destruct (skipn i text) as [|x t]; [discriminate|].
  simpl in H. apply andb_prop in H as [H _]. apply Ascii.eqb_eq in H.
  simpl. symmetry. exact H.
Qed.

Lemma rfind_match sub s e i :
  rfind text sub s e = Some i -> is_prefix sub (skipn i text) = true.
Proof.
  unfold rfind.
  destruct (rev (filter _ _)) as [|j l] eqn:E; intros H; [discriminate|].
  injection H as ->.
  assert (Hin : In i (rev (filter (fun i => is_prefix sub (skipn i text))
                    (seq s ((Nat.min e len + 1) - (s + length sub))))))
    by (rewrite E; left; reflexivity).
  apply in_rev, filter_In in Hin as [_ Hin]. exact Hin.
Qed.

(** A break found by [find_break] sits on a newline, a period or a space. *)
Lemma find_break_char s e0 b d :
  find_break text s e0 = Some b -> In (nth b text d) [nl; dot; sp].
Proof.
  unfold find_break.
  destruct (rfind text [nl; nl] s e0) eqn:E1;
    [intros H; injection H as <-; apply rfind_match in E1;
     rewrite (is_prefix_nth _ _ _ d E1); simpl; tauto|].
  destruct (rfind text [nl] s e0) eqn:E2;
    [intros H; injection H as <-; apply rfind_match in E2;
     rewrite (is_prefix_nth _ _ _ d E2); simpl; tauto|].
  destruct (rfind text [dot; sp] s e0) eqn:E3;
    [intros H; injection H as <-; apply rfind_match in E3;
     rewrite (is_prefix_nth _ _ _ d E3); simpl; tauto|].
  intros E4. apply rfind_match in E4.
  rewrite (is_prefix_nth _ _ _ d E4). simpl. tauto.
Qed.

Lemma window_end_cut s d :
  we s < Nat.min (s + chunk_size cfg) len -> In (nth (we s - 1) text d) [nl; dot; sp].
Proof.
  unfold window_end.
  destruct (s + chunk_size cfg <? len) eqn:E; [|lia].
  apply Nat.ltb_lt in E.
  destruct (find_break text s (s + chunk_size cfg)) as [b|] eqn:F; [|lia].
  destruct (s + min_progress cfg <? b); [|lia].
  pose proof (find_break_some text s _ b F).
  intros _. replace (Nat.min (b + 1) len - 1) with b by lia.
  exact (find_break_char _ _ _ d F).
Qed.

Lemma lstrip_all_spaces l : forallb is_space l = true -> lstrip l = [].
Proof.
  induction l as [|c l IH]; simpl; [reflexivity|].
  intros H. apply andb_prop in H as [H1 H2]. rewrite H1. exact (IH H2).
Qed.

End ChunkExtras.

Lemma NoDup_map_injective {A B} (f : A -> B) (l : list A) :
  (forall x y, In x l -> In y l -> f x = f y -> x = y) -> NoDup l -> NoDup (map f l).
Proof.
  induction l as [|a l IH]; intros Hf Hn; simpl; [constructor|].
  inversion Hn as [|? ? Ha Hl]; subst. constructor.
  - rewrite in_map_iff. intros [x [Hx Hin]].
    assert (x = a) by (apply Hf; simpl; auto). subst. contradiction.
  - apply IH; [|exact Hl]. intros x y Hx Hy. apply Hf; simpl; auto.
Qed.

(** X1. Every chunk returned by [chunk_text] holds the stripped text of its
    range [text[start_char:end_char]], which is non-empty; [chunk_length] is
    the length of that stripped text; the range spans at most [chunk_size]
    characters; the chunk carries the file's metadata unchanged, and its id
    is [generate_chunk_id(file_path, chunk_index)]. *)
Theorem chunk_text_chunk_contents (gen : string -> nat -> string)
    (cfg : indexer_cfg) (text : list ascii) (meta : file_meta) :
  Forall (fun d =>
      doc_text d = strip (slice text (start_char (metadata d)) (end_char (metadata d))) /\
      doc_text d <> [] /\
      chunk_length (metadata d) = length (doc_text d) /\
      end_char (metadata d) - start_char (metadata d) <= chunk_size cfg /\
      base_meta (metadata d) = meta /\
      chunk_id d = gen (file_path meta) (chunk_index (metadata d)))
    (chunk_text gen cfg text meta).
Proof.
  apply chunk_text_forall. intros s idx ct Hct Hne. simpl.
  pose proof (window_end_le_size cfg text s).
  repeat split; auto; lia.
Qed.

(** X2. When [generate_chunk_id] gives different ids to different chunk
    indices of the file, the chunks of [chunk_text] have pairwise distinct
    ids. *)
Theorem chunk_text_ids_distinct (gen : string -> nat -> string)
    (cfg : indexer_cfg) (text : list ascii) (meta : file_meta) :
  (forall i j, gen (file_path meta) i = gen (file_path meta) j -> i = j) ->
  NoDup (map chunk_id (chunk_text gen cfg text meta)).
Proof.
  intros Hinj.
  assert (Hids : map chunk_id (chunk_text gen cfg text meta) =
                 map (gen (file_path meta)) (chunk_indices (chunk_text gen cfg text meta))).
  { unfold chunk_indices. rewrite map_map. apply map_ext_in.
    intros d Hd.
    assert (Hall : Forall (fun d => chunk_id d = gen (file_path meta) (chunk_index (metadata d)))
                     (chunk_text gen cfg text meta))
      by (apply chunk_text_forall; intros; reflexivity).
    rewrite Forall_forall in Hall. exact (Hall d Hd). }
  rewrite Hids, chunk_text_indices.
  apply NoDup_map_injective; [intros x y _ _; apply Hinj|apply seq_NoDup].
Qed.

(** X3. A chunk that ends before both [start_char + chunk_size] and the end
    of the text was cut at a break point: its last character
    [text[end_char - 1]] is a newline, a period or a space. *)
Theorem chunk_text_cut_at_break (gen : string -> nat -> string)
    (cfg : indexer_cfg) (text : list ascii) (meta : file_meta) :
  Forall (fun d =>
      end_char (metadata d) < Nat.min (start_char (metadata d) + chunk_size cfg) (length text) ->
      In (nth (end_char (metadata d) - 1) text " "%char) [nl; dot; sp])
    (chunk_text gen cfg text meta).
Proof.
  apply chunk_text_forall. intros s idx ct _ _. simpl.
  apply window_end_cut.
Qed.

(** X4. For [chunk_size > overlap], when the safety limit does not stop the
    loop, [chunk_text] returns no chunk exactly when the text consists of
    whitespace only (the empty text included). *)
Theorem chunk_text_empty_iff (gen : string -> nat -> string)
    (cfg : indexer_cfg) (text : list ascii) (meta : file_meta) :
  overlap cfg < chunk_size cfg ->
  chunking_aborted gen cfg text meta = false ->
  (chunk_text gen cfg text meta = [] <-> forallb is_space text = true).
Proof.
  intros Hcfg Hab. split.
  - intros Hnil.
    destruct (forallb is_space text) eqn:Hsp; [reflexivity|exfalso].
    destruct (existsb (fun c => negb (is_space c)) text) eqn:Hex.
    2:{ assert (forallb is_space text = true); [|congruence].
        apply forallb_forall. intros x Hx.
        destruct (is_space x) eqn:Ex; [reflexivity|].
        rewrite <- Hex. apply (proj2 (existsb_exists _ _)). exists x.
        rewrite Ex. auto. }
    apply existsb_exists in Hex as [x [Hx Hnx]].
    apply In_nth with (d := " "%char) in Hx as [p [Hp Hpx]].
    apply negb_true_iff in Hnx. rewrite <- Hpx in Hnx.
    unfold chunking_aborted, chunk_text, chunk_text_run in *.
    destruct (strip text) as [|c r] eqn:ST.
    + apply strip_nil_spaces in ST. congruence.
    + destruct (chunk_loop gen cfg text meta (max_iterations cfg text) 0 0 0)
        as [L it] eqn:E. simpl in *.
      apply (chunk_loop_invariant gen cfg text meta Hcfg) in E
        as (_ & _ & _ & _ & Hc).
      apply Nat.ltb_ge in Hab.
      destruct (Hc ltac:(lia) p ltac:(lia) Hnx) as [d [Hd _]].
      rewrite Hnil in Hd. destruct Hd.
  - intros Hsp. unfold chunk_text, chunk_text_run, strip.
    rewrite (lstrip_all_spaces text Hsp). reflexivity.
Qed.

(** ** The vector store *)

Lemma filter_length_split {A} (f : A -> bool) l :
  length (filter f l) + length (filter (fun x => negb (f x)) l) = length l.
Proof. induction l as [|a l IH]; simpl; [reflexivity|]. destruct (f a); simpl; lia. Qed.

Lemma rid_injective c r r' :
  NoDup (map rid c) -> In r c -> In r' c -> rid r = rid r' -> r = r'.
Proof.
  induction c as [|a c IH]; simpl; [tauto|].
  intros Hn Hr Hr' Heq. inversion Hn as [|? ? Ha Hc]; subst.
  destruct Hr as [<-|Hr], Hr' as [<-|Hr']; auto.
  - exfalso. apply Ha. rewrite Heq. apply in_map, Hr'.
  - exfalso. apply Ha. rewrite <- Heq. apply in_map, Hr.
Qed.

Lemma delete_by_file_length_le fp c : length (delete_by_file fp c) <= length c.
Proof.
  unfold delete_by_file.
  destruct (map rid (filter _ c)); [lia|apply filter_length_le].
Qed.

(** X5. When the stored ids are distinct (as ChromaDB keeps them),
    [delete_by_file fp] removes exactly the records whose [file_path] is
    [fp]: the others stay, in order, and the count drops by the number of
    records of [fp]. *)
Theorem delete_by_file_exact (fp : string) (c : collection) :
  NoDup (map rid c) ->
  delete_by_file fp c = filter (fun r => negb (String.eqb (rec_file_path r) fp)) c /\
  length (delete_by_file fp c) + length (filter (fun r => String.eqb (rec_file_path r) fp) c) =
    length c.
Proof.
  intros Hn.
  assert (E : delete_by_file fp c =
              filter (fun r => negb (String.eqb (rec_file_path r) fp)) c).
  { unfold delete_by_file.
    destruct (map rid (filter (fun r => String.eqb (rec_file_path r) fp) c))
      as [|i ids] eqn:Ei.
    - symmetry. apply forallb_filter_id, forallb_forall. intros r Hr.
      destruct (String.eqb (rec_file_path r) fp) eqn:Er; [|reflexivity].
      assert (In (rid r) (map rid (filter (fun r => String.eqb (rec_file_path r) fp) c)))
        by (apply in_map, filter_In; auto).
      rewrite Ei in H. destruct H.
    - rewrite <- Ei. apply filter_ext_in. intros r Hr. f_equal.
      destruct (String.eqb (rec_file_path r) fp) eqn:Er.
      + apply existsb_exists. exists (rid r). split; [|apply String.eqb_refl].
        apply in_map, filter_In. auto.
      + apply Bool.not_true_iff_false. intros Hx.
        apply existsb_exists in Hx as [x [Hx Hxe]].
        apply in_map_iff in Hx as [r' [<- Hr']].
        apply filter_In in Hr' as [Hr' Hp].
        apply String.eqb_eq in Hxe.
        rewrite (rid_injective c r r' Hn Hr Hr' Hxe) in Er. congruence. }
  split; [exact E|]. rewrite E, Nat.add_comm. apply filter_length_split.
Qed.

Section VectorStoreExtras.

Variable collection_add :
  list string -> list embedding -> list (list ascii) -> list chunk_meta ->
  collection -> option collection.

(** A backend whose [add], as ChromaDB's, appends one record per id when
    none of the ids is stored yet. *)
Hypothesis Happ : forall ids embs texts metas c c',
  (forall i, In i ids -> ~ In i (map rid c)) ->
  collection_add ids embs texts metas c = Some c' ->
  c' = c ++ make_records ids embs texts metas.

Lemma delete_document_none id c :
  filter (fun r => String.eqb (rid r) id) (delete_document id c) = [].
Proof.
  unfold delete_document. induction c as [|r c IH]; simpl; [reflexivity|].
  destruct (String.eqb (rid r) id) eqn:E; simpl; [exact IH|rewrite E; exact IH].
Qed.

(** X6. [update_document] on a backend that appends records with new ids
    (as ChromaDB's): either the [add]
    succeeds, and the collection is the old one without the records of
    [chunk_id] followed by the new record, which is then the only record
    with that id; or the [add] raises, which can only be a backend error
    (one-element lists never trip the shape guard), and the records of
    [chunk_id] stay deleted. *)
Theorem update_document_replaces (chunk_id : string) (text : list ascii)
    (vec : embedding) (meta : chunk_meta) (c : collection) :
  let newrec := {| rid := chunk_id; rtext := text; remb := vec; rmeta := meta |} in
  let u := update_document collection_add chunk_id text vec meta c in
  (snd u = None /\ fst u = delete_document chunk_id c ++ [newrec] /\
   filter (fun r => String.eqb (rid r) chunk_id) (fst u) = [newrec]) \/
  (snd u = Some BackendError /\ fst u = delete_document chunk_id c /\
   filter (fun r => String.eqb (rid r) chunk_id) (fst u) = []).
Proof.
  intros newrec u. subst u.
  assert (G : shape_guard [chunk_id] [text] [vec] [meta] = false) by reflexivity.
  unfold update_document, add_document, add_documents. rewrite G.
  destruct (collection_add [chunk_id] [vec] [text] [meta] (delete_document chunk_id c))
    as [c2|] eqn:E.
  - left. apply Happ in E.
    2:{ intros i [<-|[]] Hin. apply in_map_iff in Hin as [r [Hr Hin]].
        unfold delete_document in Hin. apply filter_In in Hin as [_ Hn].
        rewrite Hr, String.eqb_refl in Hn. discriminate. }
    subst c2. cbn [fst snd make_records].
    split; [reflexivity|]. split; [reflexivity|].
    rewrite filter_app, delete_document_none. cbn.
    rewrite String.eqb_refl. reflexivity.
  - right. split; [reflexivity|]. split; [reflexivity|].
    apply delete_document_none.
Qed.

End VectorStoreExtras.

(** ** The facade *)

Lemma trunc_length {A} (m : nat) (l : list A) :
  length (if m <? length l then firstn m l else l) = Nat.min (length l) m.
Proof.
  destruct (m <? length l) eqn:E.
  - apply Nat.ltb_lt in E. rewrite length_firstn. lia.
  - apply Nat.ltb_ge in E. lia.
Qed.

Section RagExtras.

Variable absolute : string -> string.
Variable parse_file : string -> option (list ascii).
Variable extract_metadata : string -> file_meta.
Variable generate_chunk_id : string -> nat -> string.
Variable file_hash : string -> string.
Variable embed : list ascii -> embedding.
Variable collection_add :
  list string -> list embedding -> list (list ascii) -> list chunk_meta ->
  collection -> option collection.
Variable retrieve : collection -> list string -> string -> context_params ->
  list RetrievalResult.
Variable build_context : list RetrievalResult -> string -> string ->
  FormattedContext.
Variable list_files : string -> bool -> option (list (string * bool)).
Variable cfg : rag_config.

Local Abbreviation chunks_of :=
  (indexer_index_file parse_file extract_metadata generate_chunk_id cfg).
Local Abbreviation chunks_step :=
  (index_chunks parse_file extract_metadata generate_chunk_id file_hash embed
     collection_add cfg).
Local Abbreviation idx_file :=
  (index_file absolute parse_file extract_metadata generate_chunk_id file_hash embed
     collection_add cfg).
Local Abbreviation ctx := (get_context retrieve build_context cfg).

(** The frame of [index_file]: it touches only the collection and the
    embedding cache. *)
Lemma index_file_frame st path force b st' :
  idx_file st path force = (b, st') ->
  active_files st' = active_files st /\
  last_context_time st' = last_context_time st /\
  last_context_query st' = last_context_query st /\
  last_context_result st' = last_context_result st.
Proof.
  unfold index_file, index_chunks.
  repeat match goal with
         | |- context [match ?x with _ => _ end] => destruct x eqn:?
         end;
    intros H; inversion H; subst; simpl; auto.
Qed.

(** A cooldown hit of [get_context]. *)
Lemma get_context_hit st params now r :
  last_context_result st = Some r ->
  (now - last_context_time st < context_cooldown cfg)%Q ->
  ctx st (last_context_query st) params now = (r, st).
Proof.
  intros Hr Ht. unfold get_context, context_cache_hit.
  rewrite String.eqb_refl.
  destruct (Qle_bool (context_cooldown cfg) (now - last_context_time st)) eqn:E.
  - apply Qle_bool_iff in E. exfalso. exact (Qlt_not_le _ _ Ht E).
  - simpl. rewrite Hr. reflexivity.
Qed.

(** X8. [index_file] never invalidates the [get_context] cache: when a
    context was cached less than the cooldown before [now], the same query
    at [now] still returns the cached context after an [index_file] of any
    file, whatever its outcome. *)
Theorem index_file_keeps_context_cache (st : rag_state) (path : string)
    (force : bool) (params : context_params) (now : Q) (r : FormattedContext) :
  last_context_result st = Some r ->
  (now - last_context_time st < context_cooldown cfg)%Q ->
  fst (ctx (snd (idx_file st path force)) (last_context_query st) params now) = r.
Proof.
  intros Hr Ht.
  destruct (idx_file st path force) as [b st'] eqn:E.
  apply index_file_frame in E as (_ & Et & Eq & Er). simpl.
  rewrite <- Eq, (get_context_hit st' params now r); [reflexivity|congruence|rewrite Et; exact Ht].
Qed.

(** X9. Two [get_context] calls with the same query: when the first one
    retrieves (it is not served from the cache) and the second comes less
    than the cooldown after it, the second returns the first one's context
    and leaves the state as the first one left it. *)
Theorem get_context_repeat (st : rag_state) (query : string)
    (p1 p2 : context_params) (t1 t2 : Q) :
  context_cache_hit cfg st query t1 = None ->
  (t2 - t1 < context_cooldown cfg)%Q ->
  ctx (snd (ctx st query p1 t1)) query p2 t2 = ctx st query p1 t1.
Proof.
  intros Hmiss Ht.
  unfold get_context at 2 3. rewrite Hmiss. simpl.
  apply (get_context_hit
           {| store := store st; cache := cache st; active_files := active_files st;
              last_context_time := t1; last_context_query := query;
              last_context_result :=
                Some (build_context (retrieve (store st) (active_files st) query p1)
                        query (format_style p1)) |}); simpl; [reflexivity|exact Ht].
Qed.

Section CountingBackend.

(** A backend whose [add] stores at most one record per id (ChromaDB's
    skips the ids already stored). *)
Hypothesis Hadd : forall ids embs texts metas c c',
  collection_add ids embs texts metas c = Some c' -> length c' <= length c + length ids.

Lemma add_documents_count ids texts embs metas c c' :
  add_documents collection_add ids texts embs metas c = Ok c' ->
  length c' <= length c + length ids.
Proof.
  unfold add_documents. destruct (shape_guard ids texts embs metas); [discriminate|].
  destruct (collection_add ids embs texts metas c) eqn:E; [|discriminate].
  intros H. injection H as <-. exact (Hadd _ _ _ _ _ _ E).
Qed.

(** Steps 1-3 of [index_file] either fail and keep the collection, or add
    at most one record per kept chunk, within [max_documents] counted from
    [n]. *)
Lemma index_chunks_count fp n st1 b st' :
  chunks_step fp n st1 = (b, st') ->
  (b = false /\ store st' = store st1) \/
  (b = true /\
   length (store st') <=
     length (store st1) + Nat.min (length (chunks_of fp)) (max_chunks_per_file cfg) /\
   n + Nat.min (length (chunks_of fp)) (max_chunks_per_file cfg) <= max_documents cfg).
Proof.
  unfold index_chunks.
  destruct (chunks_of fp) as [|d0 ds] eqn:Ech.
  { intros H. inversion H; subst. left. auto. }
  rewrite <- Ech. rewrite <- (trunc_length (max_chunks_per_file cfg) (chunks_of fp)).
  rewrite Ech.
  destruct (max_documents cfg <? n + length (if max_chunks_per_file cfg <? length (d0 :: ds)
              then firstn (max_chunks_per_file cfg) (d0 :: ds) else d0 :: ds)) eqn:El.
  { intros H. inversion H; subst. left. auto. }
  apply Nat.ltb_ge in El.
  remember (if max_chunks_per_file cfg <? length (d0 :: ds)
            then firstn (max_chunks_per_file cfg) (d0 :: ds) else d0 :: ds)
    as chunks eqn:Hc.
  clear Hc.
  repeat match goal with
         | |- context [match ?x with _ => _ end] =>
             lazymatch x with
             | add_documents _ _ _ _ _ _ => fail
             | _ => destruct x as [embs ec]
             end
         end.
  destruct (add_documents collection_add (map chunk_id chunks) (map doc_text chunks)
              embs (map metadata chunks) (store (set_cache st1 ec))) as [c|e] eqn:Ea;
    intros H; inversion H; subst.
  - right. split; [reflexivity|]. split; [|exact El].
    apply add_documents_count in Ea. simpl. rewrite length_map in Ea. exact Ea.
  - left. auto.
Qed.

(** X7. On a backend that stores at most one record per id (as ChromaDB's),
    [index_file] never takes the document count above [max_documents]:
    afterwards the count is at most the larger of the count before and
    [max_documents]. *)
Theorem index_file_count_bound (st : rag_state) (path : string) (force : bool) :
  length (store (snd (idx_file st path force))) <=
    Nat.max (length (store st)) (max_documents cfg).
Proof.
  unfold index_file, get_document_count.
  destruct ((max_documents cfg <=? length (store st)) && negb force); [simpl; lia|].
  destruct force; simpl.
  - destruct (chunks_step (absolute path) (length (store st))
                (set_store st (delete_by_file (absolute path) (store st))))
      as [b st'] eqn:E.
    apply index_chunks_count in E. simpl.
    pose proof (delete_by_file_length_le (absolute path) (store st)).
    destruct E as [[_ ->]|(_ & Hl & Hle)]; simpl in *; lia.
  - destruct (existsb (String.eqb (absolute path)) (get_all_file_paths (store st)));
      [simpl; lia|].
    destruct (chunks_step (absolute path) (length (store st)) st) as [b st'] eqn:E.
    apply index_chunks_count in E. simpl.
    destruct E as [[_ ->]|(_ & Hl & Hle)]; lia.
Qed.

Local Abbreviation entries_step :=
  (index_entries absolute parse_file extract_metadata generate_chunk_id file_hash embed
     collection_add cfg).

Lemma index_entries_bounds st entries :
  fst (entries_step st entries) <= length (supported_files entries) /\
  (length (store st) <= max_documents cfg ->
   length (store (snd (entries_step st entries))) <= max_documents cfg).
Proof.
  revert st. induction entries as [|[p isf] rest IH]; intros st; simpl; [lia|].
  unfold supported_files. simpl.
  destruct (isf && is_supported_file (list_ascii_of_string p)); simpl.
  - pose proof (index_file_count_bound st p false) as Hb.
    destruct (idx_file st p false) as [ok st1] eqn:E. simpl in Hb.
    specialize (IH st1).
    destruct (entries_step st1 rest) as [n st2]. simpl in *.
    destruct IH as [IH1 IH2]. split.
    + destruct ok; unfold supported_files in IH1; lia.
    + intros H. apply IH2. lia.
  - exact (IH st).
Qed.

(** X10. On a backend that stores at most one record per id (as
    ChromaDB's), [index_directory] reports at most as many indexed files as
    the listing has supported files (0 for a path that is not a directory),
    and it keeps a document count that starts within [max_documents]
    within it. *)
Theorem index_directory_bounds (st : rag_state) (directory_path : string)
    (recursive : bool) :
  let r := index_directory absolute parse_file extract_metadata generate_chunk_id
             file_hash embed collection_add cfg list_files st directory_path recursive in
  fst r <= match list_files directory_path recursive with
           | Some entries => length (supported_files entries)
           | None => 0
           end /\
  (length (store st) <= max_documents cfg -> length (store (snd r)) <= max_documents cfg).
Proof.
  intros r. subst r. unfold index_directory.
  destruct (list_files directory_path recursive) as [entries|];
    [apply index_entries_bounds|simpl; split; [lia|tauto]].
Qed.

End CountingBackend.

End RagExtras.

(** ** File selection *)

Lemma lower_char_slash c : Ascii.eqb (lower_char c) slash = Ascii.eqb c slash.
Proof. destruct c as [[] [] [] [] [] [] [] []]; reflexivity. Qed.

Lemma lower_char_dot c : Ascii.eqb (lower_char c) dot = Ascii.eqb c dot.
Proof. destruct c as [[] [] [] [] [] [] [] []]; reflexivity. Qed.

Lemma lower_char_idem c : lower_char (lower_char c) = lower_char c.
Proof. destruct c as [[] [] [] [] [] [] [] []]; reflexivity. Qed.

Section MapChars.

Variable f : ascii -> ascii.
Hypothesis Hslash : forall c, Ascii.eqb (f c) slash = Ascii.eqb c slash.
Hypothesis Hdot : forall c, Ascii.eqb (f c) dot = Ascii.eqb c dot.

Lemma split_on_map s : split_on slash (map f s) = map (map f) (split_on slash s).
Proof.
  induction s as [|c s IH]; simpl; [reflexivity|].
  rewrite Hslash. destruct (Ascii.eqb c slash); rewrite IH; [reflexivity|].
  destruct (split_on slash s); reflexivity.
Qed.

Lemma keep_part_map part : keep_part (map f part) = keep_part part.
Proof. destruct part as [|c [|c' r]]; simpl; [reflexivity|rewrite Hdot|]; reflexivity. Qed.

Lemma filter_keep_map parts :
  filter keep_part (map (map f) parts) = map (map f) (filter keep_part parts).
Proof.
  induction parts as [|p parts IH]; simpl; [reflexivity|].
  rewrite keep_part_map. destruct (keep_part p); simpl; rewrite IH; reflexivity.
Qed.

Lemma last_map_chars (l : list (list ascii)) d :
  last (map (map f) l) (map f d) = map f (last l d).
Proof.
  induction l as [|a l IH]; [reflexivity|].
  destruct l as [|b l]; [reflexivity|]. exact IH.
Qed.

Lemma path_name_map p : path_name (map f p) = map f (path_name p).
Proof.
  unfold path_name. rewrite split_on_map, filter_keep_map.
  exact (last_map_chars _ []).
Qed.

Lemma rfind_dot_map t s e : rfind (map f t) [dot] s e = rfind t [dot] s e.
Proof.
  unfold rfind. rewrite length_map.
  erewrite filter_ext; [reflexivity|]. intros i.
  rewrite skipn_map. destruct (skipn i t) as [|x r]; cbn [map is_prefix]; [reflexivity|].
  rewrite (Ascii.eqb_sym dot (f x)), (Ascii.eqb_sym dot x), Hdot. reflexivity.
Qed.

Lemma path_suffix_map n : path_suffix (map f n) = map f (path_suffix n).
Proof.
  unfold path_suffix. rewrite rfind_dot_map, length_map.
  destruct (rfind n [dot] 0 (length n)); [|reflexivity].
  destruct ((0 <? n0) && (n0 <? length n - 1)); [apply skipn_map|reflexivity].
Qed.

End MapChars.

(** X11. [is_supported_file] ignores letter case in the whole path: the
    lower-cased path is supported exactly when the path is
    (so [a/B.PY] and [A/b.Py] are treated like [a/b.py]). *)
Theorem is_supported_file_lower (file_path : list ascii) :
  is_supported_file (lower file_path) = is_supported_file file_path.
Proof.
  unfold is_supported_file, lower.
  rewrite (path_name_map _ lower_char_slash lower_char_dot),
          (path_suffix_map _ lower_char_dot), map_map.
  erewrite map_ext; [reflexivity|]. apply lower_char_idem.
Qed.

(** X12. A file whose name starts with a dot and has no other dot (such as
    [.py] or [.json]) has no suffix, so [is_supported_file] rejects it. *)
Theorem is_supported_file_dotfile (file_path rest : list ascii) :
  path_name file_path = dot :: rest -> ~ In dot rest ->
  is_supported_file file_path = false.
Proof.
  intros Hn Hr. unfold is_supported_file. rewrite Hn.
  assert (Hs : path_suffix (dot :: rest) = []).
  { unfold path_suffix.
    destruct (rfind (dot :: rest) [dot] 0 (length (dot :: rest))) as [i|] eqn:E;
      [|reflexivity].
    destruct i as [|i]; [reflexivity|].
    pose proof (rfind_some _ _ _ _ _ E) as Hb. simpl in Hb.
    apply rfind_match in E. cbn [skipn] in E.
    apply (is_prefix_nth rest dot [] i " "%char) in E.
    exfalso. apply Hr. rewrite <- E. apply nth_In. lia. }
  rewrite Hs. reflexivity.
Qed.

(** ** Instances of the properties *)

Lemma unary_id_inj p i j : unary_id p i = unary_id p j -> i = j.
Proof.
  unfold unary_id. intros H.
  apply (f_equal list_ascii_of_string) in H.
  rewrite !list_ascii_of_string_of_list_ascii in H.
  apply (f_equal (@length ascii)) in H. rewrite !repeat_length in H. exact H.
Qed.

Lemma chunk_text_ids_distinct_witness :
  (forall i j, unary_id (file_path (meta_of path_f)) i =
               unary_id (file_path (meta_of path_f)) j -> i = j) /\
  NoDup (map chunk_id (chunk_text unary_id {| chunk_size := 2; overlap := 0 |} text6
                         (meta_of path_f))).
Proof.
  assert (H : forall i j, unary_id (file_path (meta_of path_f)) i =
                          unary_id (file_path (meta_of path_f)) j -> i = j)
    by (intros i j; apply unary_id_inj).
  split; [exact H|].
  exact (chunk_text_ids_distinct unary_id {| chunk_size := 2; overlap := 0 |} text6
           (meta_of path_f) H).
Defined.

Lemma chunk_text_empty_iff_witness :
  overlap {| chunk_size := 2; overlap := 0 |} < chunk_size {| chunk_size := 2; overlap := 0 |} /\
  chunking_aborted cid {| chunk_size := 2; overlap := 0 |} text6 (meta_of path_f) = false /\
  (chunk_text cid {| chunk_size := 2; overlap := 0 |} text6 (meta_of path_f) = [] <->
   forallb is_space text6 = true).
Proof.
  split; [simpl; lia|]. split; [vm_compute; reflexivity|].
  apply chunk_text_empty_iff; [simpl; lia|vm_compute; reflexivity].
Defined.

Lemma delete_by_file_exact_witness :
  NoDup (map rid (recs_f 2 ++ [rec_of "/g.txt" 0])) /\
  delete_by_file path_f (recs_f 2 ++ [rec_of "/g.txt" 0]) =
    filter (fun r => negb (String.eqb (rec_file_path r) path_f))
      (recs_f 2 ++ [rec_of "/g.txt" 0]) /\
  length (delete_by_file path_f (recs_f 2 ++ [rec_of "/g.txt" 0])) +
    length (filter (fun r => String.eqb (rec_file_path r) path_f)
              (recs_f 2 ++ [rec_of "/g.txt" 0])) =
    length (recs_f 2 ++ [rec_of "/g.txt" 0]).
Proof.
  assert (H : NoDup (map rid (recs_f 2 ++ [rec_of "/g.txt" 0]))).
  { vm_compute. repeat constructor; simpl; intuition discriminate. }
  split; [exact H|]. exact (delete_by_file_exact path_f _ H).
Defined.

Lemma update_document_replaces_witness :
  (forall ids embs texts metas c c', (forall i, In i ids -> ~ In i (map rid c)) ->
     chroma_add ids embs texts metas c = Some c' ->
     c' = c ++ make_records ids embs texts metas) /\
  (let newrec := {| rid := cid path_f 0; rtext := str "new"; remb := [2%Q];
                    rmeta := cmeta path_f 0 |} in
   let u := update_document chroma_add (cid path_f 0) (str "new") [2%Q]
              (cmeta path_f 0) (recs_f 2) in
   (snd u = None /\ fst u = delete_document (cid path_f 0) (recs_f 2) ++ [newrec] /\
    filter (fun r => String.eqb (rid r) (cid path_f 0)) (fst u) = [newrec]) \/
   (snd u = Some BackendError /\ fst u = delete_document (cid path_f 0) (recs_f 2) /\
    filter (fun r => String.eqb (rid r) (cid path_f 0)) (fst u) = [])).
Proof.
  split; [exact chroma_add_fresh|].
  exact (update_document_replaces chroma_add chroma_add_fresh (cid path_f 0) (str "new")
           [2%Q] (cmeta path_f 0) (recs_f 2)).
Defined.

Lemma index_file_count_bound_witness :
  (forall ids embs texts metas c c', chroma_add ids embs texts metas c = Some c' ->
     length c' <= length c + length ids) /\
  length (store (snd (index_file (fun p => p) (fs_with text6) meta_of cid (fun p => p)
                        embed1 chroma_add (cfg_of 2 0 5 3) (state_with (recs_f 1))
                        path_f true))) <=
    Nat.max (length (store (state_with (recs_f 1)))) (max_documents (cfg_of 2 0 5 3)).
Proof.
  split; [exact chroma_add_count|].
  exact (index_file_count_bound (fun p => p) (fs_with text6) meta_of cid (fun p => p)
           embed1 chroma_add (cfg_of 2 0 5 3) chroma_add_count
           (state_with (recs_f 1)) path_f true).
Defined.

Lemma index_file_keeps_context_cache_witness :
  last_context_result cached_state = Some (list_build [] "q" "detailed") /\
  (2 - last_context_time cached_state < context_cooldown (cfg_of 2 0 10 3))%Q /\
  fst (get_context take_retrieve list_build (cfg_of 2 0 10 3)
         (snd (run_index (cfg_of 2 0 10 3) text6 cached_state true))
         (last_context_query cached_state) (params_k 5) 2) =
    list_build [] "q" "detailed".
Proof.
  assert (H1 : last_context_result cached_state = Some (list_build [] "q" "detailed"))
    by reflexivity.
  assert (H2 : (2 - last_context_time cached_state < context_cooldown (cfg_of 2 0 10 3))%Q)
    by (vm_compute; reflexivity).
  split; [exact H1|]. split; [exact H2|].
  exact (index_file_keeps_context_cache (fun p => p) (fs_with text6) meta_of cid
           (fun p => p) embed1 append_add take_retrieve list_build (cfg_of 2 0 10 3)
           cached_state path_f true (params_k 5) 2 _ H1 H2).
Defined.

Lemma get_context_repeat_witness :
  context_cache_hit (cfg_of 2 0 10 3) (state_with (recs_f 2)) "q" 1 = None /\
  (2 - 1 < context_cooldown (cfg_of 2 0 10 3))%Q /\
  get_context take_retrieve list_build (cfg_of 2 0 10 3)
    (snd (get_context take_retrieve list_build (cfg_of 2 0 10 3) (state_with (recs_f 2))
            "q" (params_k 1) 1))
    "q" (params_k 2) 2 =
  get_context take_retrieve list_build (cfg_of 2 0 10 3) (state_with (recs_f 2))
    "q" (params_k 1) 1.
Proof.
  assert (H1 : context_cache_hit (cfg_of 2 0 10 3) (state_with (recs_f 2)) "q" 1 = None)
    by reflexivity.
  assert (H2 : (2 - 1 < context_cooldown (cfg_of 2 0 10 3))%Q) by (vm_compute; reflexivity).
  split; [exact H1|]. split; [exact H2|].
  exact (get_context_repeat take_retrieve list_build (cfg_of 2 0 10 3)
           (state_with (recs_f 2)) "q" (params_k 1) (params_k 2) 1 2 H1 H2).
Defined.

Lemma index_directory_bounds_witness :
  (forall ids embs texts metas c c', chroma_add ids embs texts metas c = Some c' ->
     length c' <= length c + length ids) /\
  (let r := index_directory (fun p => p) (fs_with text6) meta_of cid (fun p => p) embed1
              chroma_add (cfg_of 2 0 10 3) dir_listing (state_with (recs_f 1)) "/d" true in
   fst r <= match dir_listing "/d" true with
            | Some entries => length (supported_files entries)
            | None => 0
            end /\
   (length (store (state_with (recs_f 1))) <= max_documents (cfg_of 2 0 10 3) ->
    length (store (snd r)) <= max_documents (cfg_of 2 0 10 3))).
Proof.
  split; [exact chroma_add_count|].
  exact (index_directory_bounds (fun p => p) (fs_with text6) meta_of cid (fun p => p)
           embed1 chroma_add dir_listing (cfg_of 2 0 10 3) chroma_add_count
           (state_with (recs_f 1)) "/d" true).
Defined.

Lemma is_supported_file_dotfile_witness :
  path_name (str "/home/u/.py") = dot :: str "py" /\ ~ In dot (str "py") /\
  is_supported_file (str "/home/u/.py") = false.
Proof.
  assert (H1 : path_name (str "/home/u/.py") = dot :: str "py") by reflexivity.
  assert (H2 : ~ In dot (str "py")).
  { vm_compute. intros [H|[H|[]]]; discriminate. }
  split; [exact H1|]. split; [exact H2|].
  exact (is_supported_file_dotfile (str "/home/u/.py") (str "py") H1 H2).
Defined.
